(** * pypkarr: the signed-packet protocol and the DHT lookup engine

    A shallow embedding of [src/crypto.py], [src/public_key.py],
    [src/keypair.py], [src/signed_packet.py] and [src/client.py].

    Conventions.
    - Python [int] is [Z]; [bytes] is [list byte]; [str] is [string].
    - A call that can raise returns an [outcome]: [Ok v] or [Raise e].
    - A name that a module does not bind, an attribute that an object does
      not have and a call that does not fit a signature raise as they do in
      Python: [NameError], [AttributeError], [TypeError].
    - Ed25519, the DNS wire codec, the UDP/bencode transport and the clock are
      external collaborators: they are [Variable]s of the sections below. *)

From Stdlib Require Import ZArith Lia List Ascii String QArith Lqa.
From Stdlib Require Import Strings.Byte DecimalString DecimalZ DecimalPos.
From stdpp Require Import base option list strings gmap.

Local Open Scope string_scope.
Local Open Scope list_scope.
Local Open Scope Z_scope.

#[local] Set Warnings "-clear-no-such-hyp".

Abbreviation bytes := (list byte).

(** ** Exceptions *)

Inductive exn : Type :=
| KeyError
| OverflowError
| UnboundLocalError
| ValueError (msg : string)
| PublicKeyError (msg : string)
| KeypairError
| PacketError
| OSError
| StructError
| AttributeError
| TypeError
| NameError.

Inductive outcome (A : Type) : Type :=
| Ok (a : A)
| Raise (e : exn).
Arguments Ok {A} a.
Arguments Raise {A} e.

(** Sequencing: the first [Raise] ends the computation. *)
#[global] Instance outcome_bind : MBind outcome := fun A B k m =>
  match m with
  | Ok a => k a
  | Raise e => Raise e
  end.

#[global] Instance byte_eq_decision : EqDecision byte := Byte.byte_eq_dec.

Definition byte_to_Z (b : byte) : Z := Z.of_N (Byte.to_N b).

(** [bytearray.append(n)] for an [n] that the caller has masked with [& 255]. *)
Definition byte_of_Z (z : Z) : byte :=
  match Byte.of_N (Z.to_N z) with
  | Some b => b
  | None => x00
  end.

(** ** src/crypto.py: the z-base-32 codec *)

Module Crypto.

Definition alphabet : string := "ybndrfg8ejkmcpqxot1uwisza345h769".

(** [alphabet[i]]; every index the codec uses is masked with [& 31]. *)
Definition alphabet_at (i : Z) : ascii :=
  match String.get (Z.to_nat i) alphabet with
  | Some c => c
  | None => "y"%char
  end.

Fixpoint index_from (n : Z) (c : ascii) (s : string) : option Z :=
  match s with
  | EmptyString => None
  | String d s' => if Ascii.eqb c d then Some n else index_from (n + 1) c s'
  end.

(** [alphabet_map = {char: index for index, char in enumerate(alphabet)}];
    a lookup of a character outside the alphabet raises [KeyError]. *)
Definition alphabet_map (c : ascii) : option Z := index_from 0 c alphabet.

(** The inner [while bits >= 5] loop.  [fuel] is the loop variant: the
    caller passes [Z.to_nat bits], and each turn lowers [bits] by 5. *)
Fixpoint encode_drain (fuel : nat) (value bits : Z) (result : string) : Z * string :=
  match fuel with
  | O => (bits, result)
  | S fuel' =>
      if 5 <=? bits then
        let bits := bits - 5 in
        encode_drain fuel' value bits
          (result +:+ String (alphabet_at (Z.land (Z.shiftr value bits) 31)) "")
      else (bits, result)
  end.

(** The [for byte in data] loop. *)
Fixpoint encode_loop (data : bytes) (value bits : Z) (result : string) : Z * Z * string :=
  match data with
  | [] => (value, bits, result)
  | byte :: data' =>
      let value := Z.lor (Z.shiftl value 8) (byte_to_Z byte) in
      let bits := bits + 8 in
      let '(bits, result) := encode_drain (Z.to_nat bits) value bits result in
      encode_loop data' value bits result
  end.

Definition z_base_32_encode (data : bytes) : string :=
  let '(value, bits, result) := encode_loop data 0 0 "" in
  if 0 <? bits
  then result +:+ String (alphabet_at (Z.land (Z.shiftl value (5 - bits)) 31)) ""
  else result.

(** The [for char in encoded] loop, with its three locals. *)
Fixpoint decode_loop (encoded : string) (value bits : Z) (result : bytes)
  : outcome (Z * Z * bytes) :=
  match encoded with
  | EmptyString => Ok (value, bits, result)
  | String char encoded' =>
      match alphabet_map char with
      | None => Raise KeyError
      | Some index =>
          let value := Z.lor (Z.shiftl value 5) index in
          let bits := bits + 5 in
          if 8 <=? bits then
            let bits := bits - 8 in
            decode_loop encoded' value bits
              (result ++ [byte_of_Z (Z.land (Z.shiftr value bits) 255)])
          else decode_loop encoded' value bits result
      end
  end.

Definition z_base_32_decode (encoded : string) : outcome bytes :=
  '(_, _, result) ← decode_loop encoded 0 0 []; Ok result.

End Crypto.

(** ** src/public_key.py *)

Record PublicKey : Type := mkPublicKey { key : bytes }.

(** What the caller hands to [PublicKey(...)]. *)
Inductive key_material : Type :=
| KeyStr (s : string)
| KeyBytes (b : bytes)
| KeyOther.

Module PublicKeyM.

Definition init (k : key_material) : outcome PublicKey :=
  match k with
  | KeyStr s =>
      match Crypto.z_base_32_decode s with
      | Ok raw => Ok (mkPublicKey raw)
      | Raise (ValueError _) => Raise (PublicKeyError "Invalid z-base-32 encoded public key")
      | Raise e => Raise e
      end
  | KeyBytes b =>
      if negb (length b =? 32)%nat
      then Raise (PublicKeyError "Public key must be 32 bytes long")
      else Ok (mkPublicKey b)
  | KeyOther => Raise (PublicKeyError "Public key must be bytes or z-base-32 encoded string")
  end.

Definition to_z32 (pk : PublicKey) : string := Crypto.z_base_32_encode (key pk).
Definition to_bytes (pk : PublicKey) : bytes := key pk.

End PublicKeyM.

(** ** src/resource_record.py, src/packet.py *)

Module RR.
Record t : Type := mk {
  name : string;
  rclass : string;
  ttl : Z;
  rtype : string;
  rdata : string
}.
End RR.

Record Packet : Type := mkPacket {
  answers : list RR.t;
  id : Z;
  qr : bool;
  opcode : Z;
  aa : bool;
  tc : bool;
  rd : bool;
  ra : bool;
  z : Z;
  rcode : Z
}.

(** [Packet(answers)] with the dataclass defaults of [src/packet.py]. *)
Definition Packet_of (answers : list RR.t) : Packet :=
  mkPacket answers 0 true 0 true false false false 0 0.

(** ** src/keypair.py *)

Record Keypair : Type := mkKeypair {
  secret_key : bytes;
  public_key : PublicKey
}.

(** ** src/signed_packet.py

    The module defines classes [PublicKey], [ResourceRecord] and [Packet] of
    its own (l.7-32), and inside the module these names mean those classes,
    not the ones of [src/public_key.py] and [src/packet.py].  [SignedPacket]
    is a dataclass and checks no field type.  The record [SignedPacket] is a
    packet whose fields hold a [PublicKey] of [src/public_key.py] and a
    [Packet] of [src/packet.py], as a caller builds it; [Own.SignedPacket] is
    a packet whose fields hold the classes of the module, as [from_bytes]
    builds it. *)

Module Own.

Record PublicKey : Type := mkPublicKey { key : bytes }.

(** [to_z32]: the body is [pass], and the call returns [None]. *)
Definition to_z32 (self : PublicKey) : option string := None.

(** The class has no attribute [verify]: the expression [public_key.verify]
    raises [AttributeError] before any argument is evaluated. *)
Definition verify (self : PublicKey) : outcome (bytes -> bytes -> bool) :=
  Raise AttributeError.

Record ResourceRecord : Type := mkResourceRecord {
  name : string;
  rclass : Z;
  ttl : Z;
  rdata : bytes
}.

Record Packet : Type := mkPacket { answers : list ResourceRecord }.

Definition new_reply (id : Z) : Packet := mkPacket [].

(** [build_bytes_vec_compressed]: the body is [pass]. *)
Definition build_bytes_vec_compressed (self : Packet) : option bytes := None.

Record SignedPacket : Type := mkSignedPacket {
  public_key : PublicKey;
  signature : bytes;
  timestamp : Z;
  packet : Packet;
  last_seen : Z
}.

End Own.

Record SignedPacket : Type := mkSignedPacket {
  sp_public_key : PublicKey;
  signature : bytes;
  timestamp : Z;
  packet : Packet;
  last_seen : Z
}.

(** Python's [str(n)] for an [int], as [f"{n}"] formats it. *)
Definition str_int (n : Z) : string := DecimalString.NilZero.string_of_int (Z.to_int n).

(** [s.encode()] for a [str] made of ASCII characters only. *)
Definition encode (s : string) : bytes := list_byte_of_string s.

(** [int.from_bytes(b, 'big')]. *)
Definition int_from_bytes (b : bytes) : Z :=
  fold_left (fun acc x => acc * 256 + byte_to_Z x) b 0.

Fixpoint be_digits (k : nat) (n : Z) : bytes :=
  match k with
  | O => []
  | S k' => be_digits k' (n / 256) ++ [byte_of_Z (n mod 256)]
  end.

(** [n.to_bytes(k, 'big')]: [OverflowError] for a negative [n] or one that
    does not fit in [k] bytes. *)
Definition int_to_bytes (k : nat) (n : Z) : outcome bytes :=
  if (0 <=? n) && (n <? 256 ^ Z.of_nat k) then Ok (be_digits k n) else Raise OverflowError.

(** [data[a:b]] for [0 <= a <= b]. *)
Definition slice (a b : nat) (data : bytes) : bytes := take (b - a) (drop a data).

(** [min(xs)] of a non-empty sequence whose first element is [x]. *)
Fixpoint min_from (x : Z) (xs : list Z) : Z :=
  match xs with
  | [] => x
  | y :: xs' => min_from (if y <? x then y else x) xs'
  end.

Module SignedPacketM.

Definition signable (timestamp : Z) (v : bytes) : bytes :=
  encode ("3:seqi" +:+ str_int timestamp +:+ "e1:v" +:+ str_int (Z.of_nat (length v)) +:+ ":")
  ++ v.

Definition ttl (self : SignedPacket) (min_ttl max_ttl : Z) : Z :=
  match answers (packet self) with
  | [] => min_ttl
  | rr :: rest =>
      let min_record_ttl := min_from (RR.ttl rr) (map RR.ttl rest) in
      Z.max min_ttl (Z.min max_ttl min_record_ttl)
  end.

(** [now_us] is [int(time.time() * 1_000_000)]. *)
Definition elapsed (now_us : Z) (self : SignedPacket) : Z :=
  (now_us - last_seen self) / 1000000.

Definition expires_in (now_us : Z) (self : SignedPacket) (min_ttl max_ttl : Z) : Z :=
  Z.max 0 (ttl self min_ttl max_ttl - elapsed now_us self).

Section Protocol.

(** The Ed25519 provider behind [Crypto.derive_public_key], [Crypto.sign] and
    [Crypto.verify]; [ed25519_verify] is [true] when the library's [verify]
    returns and [false] when it raises [BadSignatureError]. *)
Variable ed25519_derive : bytes -> bytes.
Variable ed25519_sign : bytes -> bytes -> bytes.
Variable ed25519_verify : bytes -> bytes -> bytes -> bool.

(** The DNS wire codec behind [Packet.build_bytes_vec_compressed]; it raises
    [PacketError] when the message cannot be built. *)
Variable build_bytes_vec_compressed : Packet -> outcome bytes.

Definition Crypto_derive_public_key (secret_key : bytes) : outcome bytes :=
  if negb (length secret_key =? 32)%nat
  then Raise (ValueError "Secret key must be 32 bytes long")
  else Ok (ed25519_derive secret_key).

Definition Crypto_sign (secret_key message : bytes) : outcome bytes :=
  if negb (length secret_key =? 32)%nat
  then Raise (ValueError "Secret key must be 32 bytes long")
  else Ok (ed25519_sign secret_key message).

Definition Crypto_verify (public_key message signature : bytes) : bool :=
  ed25519_verify public_key message signature.

Definition Keypair_init (secret_key : bytes) : outcome Keypair :=
  if negb (length secret_key =? 32)%nat then Raise KeypairError
  else
    raw ← Crypto_derive_public_key secret_key;
    pk ← PublicKeyM.init (KeyBytes raw);
    Ok (mkKeypair secret_key pk).

Definition Keypair_sign (self : Keypair) (message : bytes) : outcome bytes :=
  Crypto_sign (secret_key self) message.

Definition PublicKey_verify (self : PublicKey) (message signature : bytes) : bool :=
  Crypto_verify (key self) message signature.

(** [keypair.public_key()]: [public_key] is an attribute of a [Keypair]
    (keypair.py l.10) that holds a [PublicKey] of [src/public_key.py]; the
    class defines no [__call__], and the call raises [TypeError]. *)
Definition PublicKey_call (self : PublicKey) : outcome PublicKey := Raise TypeError.

(** [from_packet] for a [Keypair] of [src/keypair.py] and a [Packet] of
    [src/packet.py].  [t_sign] and [t_seen] are the two readings
    [int(time.time() * 1_000_000)].  The second component lists the messages
    handed to [keypair.sign], in order. *)
Definition from_packet (t_sign t_seen : Z) (keypair : Keypair) (p : Packet)
  : outcome SignedPacket * list bytes :=
  let timestamp := t_sign in
  match build_bytes_vec_compressed p with
  | Raise e => (Raise e, [])
  | Ok encoded_packet =>
      if (1000 <? length encoded_packet)%nat
      then (Raise (ValueError "Packet too large"), [])
      else
        let message := signable timestamp encoded_packet in
        (signature ← Keypair_sign keypair message;
         public_key ← PublicKey_call (public_key keypair);
         Ok (mkSignedPacket public_key signature timestamp p t_seen),
         [message])
  end.

(** [from_bytes]: [PublicKey] and [Packet] are the classes of this module. *)
Definition from_bytes (t_seen : Z) (data : bytes) : outcome Own.SignedPacket :=
  if (length data <? 104)%nat then Raise (ValueError "Invalid SignedPacket bytes length")
  else if (1104 <? length data)%nat then Raise (ValueError "Packet too large")
  else
    let public_key := Own.mkPublicKey (slice 0 32 data) in
    let signature := slice 32 96 data in
    let timestamp := int_from_bytes (slice 96 104 data) in
    let encoded_packet := drop 104 data in
    verify ← Own.verify public_key;
    if negb (verify (signable timestamp encoded_packet) signature)
    then Raise (ValueError "Invalid signature")
    else
      (* packet = Packet([])  # Parse encoded_packet into a Packet object here *)
      let packet := Own.mkPacket [] in
      Ok (Own.mkSignedPacket public_key signature timestamp packet t_seen).

Definition as_bytes (self : SignedPacket) : outcome bytes :=
  ts ← int_to_bytes 8 (timestamp self);
  encoded ← build_bytes_vec_compressed (packet self);
  Ok (key (sp_public_key self) ++ signature self ++ ts ++ encoded).

Definition to_relay_payload (self : SignedPacket) : outcome bytes :=
  b ← as_bytes self; Ok (drop 32 b).

End Protocol.

End SignedPacketM.

(** ** src/client.py

    [__init__] binds [keypair], [bootstrap_nodes] and [known_nodes]; [lookup]
    reads [self.cache], which no code of the module creates.  [lookup] calls
    [_request_packet] with two arguments where its signature has three, and
    names [DEFAULT_MINIMUM_TTL] and [DEFAULT_MAXIMUM_TTL], which [lookup.py]
    binds and this module does not.  [_connect_to_peers] calls the
    five-field dataclass [SignedPacket] with three arguments. *)

Module Client.

(** [a < b] on clock readings. *)
Definition Qltb (a b : Q) : bool := negb (Qle_bool b a).

(** Exceptions that [except PkarrError] catches. *)
Definition is_PkarrError (e : exn) : bool :=
  match e with
  | PublicKeyError _ | KeypairError | PacketError => true
  | _ => false
  end.

(** [c in s]. *)
Fixpoint contains (c : ascii) (s : string) : bool :=
  match s with
  | EmptyString => false
  | String d s' => Ascii.eqb c d || contains c s'
  end.

(** [s.split(c)] for a one-character separator: [cur] is the part being read. *)
Fixpoint split_from (c : ascii) (s : string) (cur : string) : list string :=
  match s with
  | EmptyString => [cur]
  | String d s' =>
      if Ascii.eqb c d then cur :: split_from c s' ""
      else split_from c s' (cur +:+ String d "")
  end.

Definition split (c : ascii) (s : string) : list string := split_from c s "".

(** [b.hex()] is only logged; [socket.inet_ntoa] of four bytes. *)
Definition inet_ntoa (b : bytes) : outcome string :=
  match b with
  | [a; b; c; d] =>
      Ok (str_int (byte_to_Z a) +:+ "." +:+ str_int (byte_to_Z b) +:+ "." +:+
          str_int (byte_to_Z c) +:+ "." +:+ str_int (byte_to_Z d))
  | _ => Raise OSError
  end.

(** [struct.unpack("!H", b)[0]]. *)
Definition unpack_H (b : bytes) : outcome Z :=
  match b with
  | [hi; lo] => Ok (byte_to_Z hi * 256 + byte_to_Z lo)
  | _ => Raise StructError
  end.

(** [_decode_nodes]: [range(0, len(nodes_data), 26)] has at most
    [len(nodes_data)] turns, which is the [fuel]. *)
Fixpoint decode_nodes_loop (fuel : nat) (nodes_data : bytes) (nodes : list string)
  : outcome (list string) :=
  match nodes_data, fuel with
  | [], _ | _, O => Ok nodes
  | _, S fuel' =>
      ip ← inet_ntoa (slice 20 24 nodes_data);
      port ← unpack_H (slice 24 26 nodes_data);
      decode_nodes_loop fuel' (drop 26 nodes_data) (nodes ++ [ip +:+ ":" +:+ str_int port])
  end.

Definition _decode_nodes (nodes_data : bytes) : outcome (list string) :=
  decode_nodes_loop (length nodes_data) nodes_data [].

(** The body [r] of a reply and the reply itself, after bencode decoding. *)
Record reply_body : Type := mkBody {
  values : option (list bytes);
  nodes : option bytes
}.

Record response : Type := mkResponse {
  y_is_e : bool;
  r : option reply_body
}.

(** What the [try] body of [_request_packet] meets once the socket exists:
    [socket.timeout], any other exception raised outside the steps modelled
    in [handle_response] (sending, receiving, [bencodepy.decode], the
    formatting of the log lines), or a decoded dictionary. *)
Inductive exchange : Type :=
| SocketTimeout
| Fault
| Received (resp : response).

(** How far the address parsing of [_request_packet] gets: the split of
    [node] fails (neither [host] nor [port] is bound), [int(port)] fails, or
    both succeed and the socket is created. *)
Inductive address : Type :=
| SplitFails
| IntFails (host port : string)
| Address (host : string) (port : Z).

Record client : Type := mkClient {
  keypair : Keypair;
  bootstrap_nodes : list string;
  known_nodes : gset string;
  (** [self.cache], [None] while the object has no attribute of this name.
      [__init__] creates none; a caller can attach one to the object. *)
  cache : option (gmap string (SignedPacket * Q));
  (** Instrumentation: the number of [time.time()] readings so far, the
      nodes that [lookup] has popped from its frontier so far, and the nodes
      for which the body of [_request_packet] has run so far, oldest first. *)
  clock_reads : nat;
  queried : list string;
  requests : list string
}.

(** [PkarrClient(keypair, bootstrap_nodes)]. *)
Definition PkarrClient_init (keypair : Keypair) (bootstrap_nodes : list string) : client :=
  mkClient keypair bootstrap_nodes (list_to_set bootstrap_nodes) None 0 [] [].

(** [_update_known_nodes]. *)
Definition _update_known_nodes (self : client) (new_nodes : list string) : client :=
  mkClient (keypair self) (bootstrap_nodes self) (known_nodes self ∪ list_to_set new_nodes)
    (cache self) (clock_reads self) (queried self) (requests self).

(** [SignedPacket(target_key, b"dummy_signature", Packet())]: three
    arguments for the five fields of the dataclass, none of which has a
    default; its [__init__] raises [TypeError]. *)
Definition SignedPacket_of_three (public_key : PublicKey) (signature : bytes)
    (timestamp : Packet) : outcome SignedPacket := Raise TypeError.

Definition dummy_signature : bytes := encode "dummy_signature".

(** [_connect_to_peers]; [peer] is the local of that name, unbound ([None])
    until a turn of the loop has formatted it.  The handler of a failed turn
    formats [peer] into its log line and the loop goes on. *)
Fixpoint _connect_to_peers (peer_values : list bytes) (peer : option string)
    (target_key : PublicKey) : outcome (option SignedPacket) :=
  match peer_values with
  | [] => Ok None
  | peer_value :: rest =>
      let '(attempt, peer) :=
        match (ip ← inet_ntoa (take 4 peer_value);
               port ← unpack_H (drop 4 peer_value);
               Ok (ip +:+ ":" +:+ str_int port)) with
        | Ok p => (SignedPacket_of_three target_key dummy_signature (Packet_of []), Some p)
        | Raise e => (Raise e, peer)
        end in
      match attempt with
      | Ok signed_packet => Ok (Some signed_packet)
      | Raise _ =>
          match peer with
          | None => Raise UnboundLocalError
          | Some _ => _connect_to_peers rest peer target_key
          end
      end
  end.

Section Engine.

(** [int(s)] of Python. *)
Variable py_int : string -> option Z.
(** The [k]-th reading of [time.time()], in seconds. *)
Variable clock : nat -> Q.
(** The exchange with [host:port] that is the [k]-th request of the client. *)
Variable transport : nat -> string -> Z -> exchange.
(** [s.pop()] on a non-empty set: the element it takes out. *)
Variable set_pop : gset string -> string.

Definition tick (self : client) : client :=
  mkClient (keypair self) (bootstrap_nodes self) (known_nodes self) (cache self)
    (S (clock_reads self)) (queried self) (requests self).

Definition time_time (self : client) : Q * client := (clock (clock_reads self), tick self).

Definition note_query (self : client) (node : string) : client :=
  mkClient (keypair self) (bootstrap_nodes self) (known_nodes self) (cache self)
    (clock_reads self) (queried self ++ [node]) (requests self).

Definition note_request (self : client) (node : string) : client :=
  mkClient (keypair self) (bootstrap_nodes self) (known_nodes self) (cache self)
    (clock_reads self) (queried self) (requests self ++ [node]).

Definition parse_address (node : string) : address :=
  let ip_port :=
    if contains "@" node then
      match split "@" node with
      | [_; ip_port] => Some ip_port
      | _ => None
      end
    else Some node in
  match ip_port with
  | None => SplitFails
  | Some ip_port =>
      match split ":" ip_port with
      | [host; port] =>
          match py_int port with
          | Some p => Address host p
          | None => IntFails host port
          end
      | _ => SplitFails
      end
  end.

(** The [try] body of [_request_packet] once the reply is decoded. *)
Definition handle_response (self : client) (target_key : PublicKey) (resp : response)
  : outcome (option (SignedPacket + list string)) * client :=
  (* _decode_response decodes the nodes of the reply for the log *)
  match (match r resp with
         | Some body => match nodes body with
                        | Some nd => _ ← _decode_nodes nd; Ok tt
                        | None => Ok tt
                        end
         | None => Ok tt
         end) with
  | Raise e => (Raise e, self)
  | Ok _ =>
      if y_is_e resp then (Ok None, self)
      else
        match r resp with
        | Some body =>
            match values body with
            | Some peer_values =>
                match _connect_to_peers peer_values None target_key with
                | Ok res => (Ok (inl <$> res), self)
                | Raise e => (Raise e, self)
                end
            | None =>
                match nodes body with
                | Some nd =>
                    match _decode_nodes nd with
                    | Ok decoded_nodes =>
                        (Ok (Some (inr decoded_nodes)),
                         _update_known_nodes self decoded_nodes)
                    | Raise e => (Raise e, self)
                    end
                | None => (Ok None, self)
                end
            end
        | None => (Ok None, self)
        end
  end.

(** [_request_packet(node, target_key, record_type)]; [record_type] goes
    into log lines only.  When the address does not parse, [sock] is unbound
    in the [finally] clause, and [sock.close()] raises. *)
Definition _request_packet (self : client) (node : string) (target_key : PublicKey)
    (record_type : string) : outcome (option (SignedPacket + list string)) * client :=
  let k := length (requests self) in
  let self := note_request self node in
  match parse_address node with
  | SplitFails => (Raise UnboundLocalError, self)
  | IntFails _ _ => (Raise UnboundLocalError, self)
  | Address host port =>
      match transport k host port with
      | SocketTimeout => (Ok None, self)
      | Fault => (Ok None, self)
      | Received resp =>
          match handle_response self target_key resp with
          | (Ok res, self') => (Ok res, self')
          | (Raise _, self') => (Ok None, self')
          end
      end
  end.

(** The code after the [while] loop: it only logs, reading the clock once
    for the summary and once more when the attempt budget is not the cause. *)
Definition lookup_finish (self : client) (attempts max_attempts : Z)
  : outcome (option SignedPacket) * client :=
  let '(_, self) := time_time self in
  let self := if max_attempts <=? attempts then self else tick self in
  (Ok None, self).

Section Loop.

(** The call expression of l.50, [self._request_packet(node, target_key)]:
    what it returns or raises, and the client it leaves.  The loop is
    written over any such call; [lookup] below is the loop with the call
    that the code makes. *)
Variable call : client -> string -> PublicKey ->
                outcome (option (SignedPacket + list string)) * client.

(** The [while] loop of [lookup].  [fuel] only makes the recursion
    structural: every turn adds 1 to [attempts] and the test of the loop
    stops it when [attempts] reaches [max_attempts], so that a [fuel] above
    [max_attempts - attempts] is never used up ([lookup_miss] passes one
    more than [max_attempts]). *)
Fixpoint lookup_loop (fuel : nat) (public_key : string) (target_key : PublicKey)
    (max_attempts timeout : Z) (start_time : Q)
    (nodes_to_query queried_nodes : gset string) (attempts : Z) (self : client)
  : outcome (option SignedPacket) * client :=
  match fuel with
  | O => lookup_finish self attempts max_attempts
  | S fuel' =>
      if decide (nodes_to_query = ∅) then lookup_finish self attempts max_attempts
      else if negb (attempts <? max_attempts) then lookup_finish self attempts max_attempts
      else
        let '(now, self) := time_time self in
        if negb (Qltb (now - start_time) (inject_Z timeout))
        then lookup_finish self attempts max_attempts
        else
          let node := set_pop nodes_to_query in
          let nodes_to_query := nodes_to_query ∖ {[node]} in
          let queried_nodes := queried_nodes ∪ {[node]} in
          let attempts := attempts + 1 in
          let self := note_query self node in
          match call self node target_key with
          | (Ok (Some (inl result)), self) =>
              (* l.52 reads the clock for its log line; l.54 reads it again
                 and then evaluates DEFAULT_MINIMUM_TTL *)
              let '(_, self) := time_time self in
              let '(_, self) := time_time self in
              (Raise NameError, self)
          | (Ok (Some (inr result)), self) =>
              let nodes_to_query :=
                match result with
                | [] => nodes_to_query
                | _ => nodes_to_query ∪ (list_to_set result ∖ queried_nodes)
                end in
              lookup_loop fuel' public_key target_key max_attempts timeout start_time
                nodes_to_query queried_nodes attempts self
          | (Ok None, self) =>
              lookup_loop fuel' public_key target_key max_attempts timeout start_time
                nodes_to_query queried_nodes attempts self
          | (Raise e, self) =>
              if is_PkarrError e
              then lookup_loop fuel' public_key target_key max_attempts timeout start_time
                     nodes_to_query queried_nodes attempts self
              else (Raise e, self)
          end
  end.

Definition lookup_miss (self : client) (public_key : string) (target_key : PublicKey)
    (max_attempts timeout : Z) : outcome (option SignedPacket) * client :=
  let nodes_to_query : gset string := list_to_set (bootstrap_nodes self) in
  let queried_nodes : gset string := ∅ in
  let '(start_time, self) := time_time self in
  lookup_loop (S (Z.to_nat max_attempts)) public_key target_key max_attempts timeout
    start_time nodes_to_query queried_nodes 0 self.

Definition lookup_calling (self : client) (public_key : string) (max_attempts timeout : Z)
  : outcome (option SignedPacket) * client :=
  match PublicKeyM.init (KeyStr public_key) with
  | Raise e => (Raise e, self)
  | Ok target_key =>
      match cache self with
      | None => (Raise AttributeError, self)
      | Some entries =>
          match entries !! public_key with
          | Some (cached_packet, expiration_time) =>
              let '(now, self) := time_time self in
              if Qltb now expiration_time
              then (Ok (Some cached_packet), tick self)
              else lookup_miss self public_key target_key max_attempts timeout
          | None => lookup_miss self public_key target_key max_attempts timeout
          end
      end
  end.

End Loop.

(** The call that l.50 makes: [node] and [target_key] for a method whose
    signature (l.75) requires [record_type] as well.  Python raises
    [TypeError] when it binds the arguments, before the body runs. *)
Definition _request_packet_of_two (self : client) (node : string) (target_key : PublicKey)
  : outcome (option (SignedPacket + list string)) * client :=
  (Raise TypeError, self).

Definition lookup (self : client) (public_key : string) (max_attempts timeout : Z)
  : outcome (option SignedPacket) * client :=
  lookup_calling _request_packet_of_two self public_key max_attempts timeout.

End Engine.

End Client.

(** ** Further functions of the sources *)

(** The characters of a [str], in order. *)
Definition chars (s : string) : list ascii := list_ascii_of_string s.

(** *** src/resource_record.py *)

Module RRM.

Definition is_expired (self : RR.t) (current_time : Z) : bool := RR.ttl self <? current_time.

Definition remaining_ttl (self : RR.t) (current_time : Z) : Z :=
  Z.max 0 (RR.ttl self - current_time).

End RRM.

(** *** src/packet.py *)

Module PacketM.

Definition new_reply (id : Z) : Packet := mkPacket [] id true 0 true false false false 0 0.

Definition add_answer (self : Packet) (answer : RR.t) : Packet :=
  mkPacket (answers self ++ [answer]) (id self) (qr self) (opcode self) (aa self)
    (tc self) (rd self) (ra self) (z self) (rcode self).

(** The value of [msg.flags] that [build_bytes_vec_compressed] assembles
    before it hands the message to the codec. *)
Definition build_flags (self : Packet) : Z :=
  let flags := 0 in
  let flags := if qr self then Z.lor flags (Z.shiftl 1 15) else flags in
  let flags := Z.lor flags (Z.shiftl (Z.land (opcode self) 15) 11) in
  let flags := if aa self then Z.lor flags (Z.shiftl 1 10) else flags in
  let flags := if tc self then Z.lor flags (Z.shiftl 1 9) else flags in
  let flags := if rd self then Z.lor flags (Z.shiftl 1 8) else flags in
  let flags := if ra self then Z.lor flags (Z.shiftl 1 7) else flags in
  let flags := Z.lor flags (Z.shiftl (Z.land (z self) 7) 4) in
  let flags := Z.lor flags (Z.land (rcode self) 15) in
  flags.

(** [bool(n)] for an [int]. *)
Definition truthy (n : Z) : bool := negb (n =? 0).

(** The header that [from_bytes] builds from [msg.id] and [msg.flags],
    before it appends the answers. *)
Definition header_of_flags (msg_id msg_flags : Z) : Packet :=
  mkPacket [] msg_id
    (truthy (Z.land msg_flags (Z.shiftl 1 15)))
    (Z.land (Z.shiftr msg_flags 11) 15)
    (truthy (Z.land msg_flags (Z.shiftl 1 10)))
    (truthy (Z.land msg_flags (Z.shiftl 1 9)))
    (truthy (Z.land msg_flags (Z.shiftl 1 8)))
    (truthy (Z.land msg_flags (Z.shiftl 1 7)))
    (Z.land (Z.shiftr msg_flags 4) 7)
    (Z.land msg_flags 15).

End PacketM.

(** *** src/keypair.py *)

Module KeypairM.

Definition verify (ed25519_verify : bytes -> bytes -> bytes -> bool)
    (self : Keypair) (message signature : bytes) : bool :=
  SignedPacketM.PublicKey_verify ed25519_verify (public_key self) message signature.

Definition to_bytes (self : Keypair) : bytes := secret_key self.

End KeypairM.

(** *** src/signed_packet.py: names and records *)

Module SignedPacketRecords.

(** [s.endswith(c)] for a one-character [c]. *)
Fixpoint ends_with (c : ascii) (s : string) : bool :=
  match s with
  | EmptyString => false
  | String d EmptyString => Ascii.eqb d c
  | String _ s' => ends_with c s'
  end.

(** [s[:-1]]. *)
Fixpoint drop_last (s : string) : string :=
  match s with
  | EmptyString => EmptyString
  | String _ EmptyString => EmptyString
  | String d s' => String d (drop_last s')
  end.

Definition normalize_name (origin name : string) : string :=
  let name := if ends_with "." name then drop_last name else name in
  let parts := Client.split "." name in
  let last := List.last parts "" in
  if String.eqb last origin then name
  else if String.eqb last "@" || String.eqb last "" then origin
  else name +:+ "." +:+ origin.

Definition resource_records (self : SignedPacket) (name : string) : list RR.t :=
  let origin := PublicKeyM.to_z32 (sp_public_key self) in
  let normalized_name := normalize_name origin name in
  List.filter (fun rr => String.eqb (RR.name rr) normalized_name) (answers (packet self)).

(** [current_time] is [int(time.time())]. *)
Definition fresh_resource_records (current_time : Z) (self : SignedPacket) (name : string)
  : list RR.t :=
  let origin := PublicKeyM.to_z32 (sp_public_key self) in
  let normalized_name := normalize_name origin name in
  List.filter
    (fun rr => String.eqb (RR.name rr) normalized_name &&
               (current_time - last_seen self / 1000000 <? RR.ttl rr))
    (answers (packet self)).

End SignedPacketRecords.

(** ** Proof-side definitions *)

(** The state of the encoder after the bytes [pre], related to the state of
    the decoder run on the symbols emitted so far: the decoder holds the
    emitted bits, has returned the bytes [out], and the pending bits of both
    sides are exactly the bytes [rest] still to come out. *)
Definition codec_inv (pre : bytes) (st : Z * Z * string) : Prop :=
  let '(v, be, res) := st in
  0 <= v /\ 0 <= be < 5 /\
  exists (out rest : bytes) (bd : Z),
    Crypto.decode_loop res 0 0 [] = Ok (v / 2 ^ be, bd, out) /\
    0 <= bd < 8 /\
    pre = out ++ rest /\
    8 * Z.of_nat (length rest) = be + bd /\
    (forall a, rest = [a] -> v mod 256 = byte_to_Z a).

(** The record TTLs of a signed packet, in order. *)
Definition record_ttls (sp : SignedPacket) : list Z := map RR.ttl (answers (packet sp)).

(** [clamp(x, lo, hi)] as the specification uses it. *)
Definition clamp (x lo hi : Z) : Z :=
  if x <? lo then lo else if hi <? x then hi else x.

(** A stand-in signature scheme for closed examples: the tag of a message is
    the first 64 bytes of key, message and padding, and the public key is the
    secret itself.  It is correct (every tag it makes verifies) and checks
    every byte of the tag; it has no other merit. *)
Definition demo_derive (sk : bytes) : bytes := sk.
Definition demo_sign (sk msg : bytes) : bytes := take 64 (sk ++ msg ++ repeat x00 64).
Definition demo_verify (pk msg sig : bytes) : bool := bool_decide (sig = demo_sign pk msg).

(** A stand-in wire codec for closed examples: one byte per answer record. *)
Definition demo_codec (p : Packet) : outcome bytes :=
  Ok (map (fun rr => byte_of_Z (RR.ttl rr mod 256)) (answers p)).

Definition demo_secret : bytes := repeat x07 32.
Definition demo_record : RR.t := RR.mk "foo" "IN" 30 "TXT" "bar".

Definition demo_keypair : Keypair := mkKeypair demo_secret (mkPublicKey demo_secret).
Definition demo_packet : Packet := Packet_of [demo_record].

(** Stand-ins for closed examples of the lookup engine: decimal [int(s)], a
    clock that advances one second per reading, and a [pop] that takes the
    first element in the set's enumeration. *)
Definition demo_int (s : string) : option Z :=
  match s with
  | EmptyString => None
  | _ => option_map Z.of_int (NilZero.int_of_string s)
  end.

Definition demo_clock (k : nat) : Q := inject_Z (Z.of_nat k).

Definition demo_pop (s : gset string) : string :=
  match elements s with
  | x :: _ => x
  | [] => ""
  end.

(** A compact peer value: 10.0.0.9, port 6881. *)
Definition demo_peer : bytes := [x0a; x00; x00; x09; x1a; xe1].

(** A compact node record: a 20-byte id, then 10.0.0.2, port 6881. *)
Definition demo_node_record : bytes := repeat x11 20 ++ [x0a; x00; x00; x02; x1a; xe1].

(** The node 10.0.0.1 answers with one closer node, 10.0.0.2; that node
    answers with a peer value; every other host times out. *)
Definition demo_transport (k : nat) (host : string) (port : Z) : Client.exchange :=
  if String.eqb host "10.0.0.1"
  then Client.Received (Client.mkResponse false
         (Some (Client.mkBody None (Some demo_node_record))))
  else if String.eqb host "10.0.0.2"
  then Client.Received (Client.mkResponse false
         (Some (Client.mkBody (Some [demo_peer]) None)))
  else Client.SocketTimeout.

(** A client as its constructor leaves it, and the same client after a
    caller has attached an empty dictionary as its [cache]. *)
Definition demo_client : Client.client :=
  Client.PkarrClient_init demo_keypair ["10.0.0.1:6881"].

Definition demo_client_cached : Client.client :=
  Client.mkClient demo_keypair ["10.0.0.1:6881"] (list_to_set ["10.0.0.1:6881"])
    (Some ∅) 0 [] [].

(** The z-base-32 text of the 32-byte key [demo_secret]. *)
Definition demo_key_text : string := Crypto.z_base_32_encode demo_secret.

Definition demo_lookup (self : Client.client) (public_key : string)
    (max_attempts timeout : Z) : outcome (option SignedPacket) * Client.client :=
  Client.lookup demo_clock demo_pop self public_key max_attempts timeout.

(** A direct call of [_request_packet] with its three arguments. *)
Definition demo_request (self : Client.client) (node : string)
  : outcome (option (SignedPacket + list string)) * Client.client :=
  Client._request_packet demo_int demo_transport self node (mkPublicKey demo_secret) "TXT".

(** A client whose only bootstrap node is given without a port. *)
Definition demo_client_noport : Client.client :=
  Client.PkarrClient_init demo_keypair ["localhost"].

(** The characters that Python writes for an [int]: the digits and the sign. *)
Definition is_numeral_char (c : ascii) : bool :=
  existsb (Ascii.eqb c) (chars "-0123456789").

(** A signed packet of the demo provider and a 104-byte wire form. *)
Definition demo_signed_packet : SignedPacket :=
  mkSignedPacket (public_key demo_keypair)
    (demo_sign demo_secret (SignedPacketM.signable 1700000000000000 [x1e]))
    1700000000000000 demo_packet 1700000000000001.

Definition demo_wire : bytes :=
  demo_secret ++ demo_sign demo_secret (SignedPacketM.signable 5 []) ++ be_digits 8 5.

(** The flags word as a function of the header fields after masking, and the
    check that reading it back returns them; used to cover all 65536 headers
    by evaluation. *)
Definition flags_word (q a t d r : bool) (o zz rc : Z) : Z :=
  PacketM.build_flags (mkPacket [] 0 q o a t d r zz rc).

Definition flags_check (q a t d r : bool) (o zz rc : Z) : bool :=
  let w := flags_word q a t d r o zz rc in
  let h := PacketM.header_of_flags 0 w in
  (0 <=? w) && (w <? 65536) &&
  Bool.eqb (qr h) q && Bool.eqb (aa h) a && Bool.eqb (tc h) t &&
  Bool.eqb (rd h) d && Bool.eqb (ra h) r &&
  (opcode h =? o) && (z h =? zz) && (rcode h =? rc).

Definition below (n : nat) : list Z := map Z.of_nat (seq 0 n).

Definition flags_check_all : bool :=
  forallb (fun q => forallb (fun a => forallb (fun t => forallb (fun d => forallb (fun r =>
  forallb (fun o => forallb (fun zz => forallb (fun rc =>
    flags_check q a t d r o zz rc) (below 16)) (below 8)) (below 16))
  [true; false]) [true; false]) [true; false]) [true; false]) [true; false].

(** A node text as [_decode_nodes] writes it: a host without [":"] and
    ["@"], a colon, and the decimal numeral of a 16-bit port. *)
Definition decoded_node (s : string) : Prop :=
  exists host port,
    s = host +:+ ":" +:+ str_int port /\ 0 <= port < 65536 /\
    Forall (fun c => c <> ":"%char /\ c <> "@"%char) (chars host).

(** A client with an attached cache and no bootstrap node, and one whose
    attached cache holds an entry for the demo key that is fresh until clock
    value 100. *)
Definition demo_client_empty : Client.client :=
  Client.mkClient demo_keypair [] ∅ (Some ∅) 0 [] [].

Definition demo_client_fresh : Client.client :=
  Client.mkClient demo_keypair ["10.0.0.1:6881"] (list_to_set ["10.0.0.1:6881"])
    (Some {[demo_key_text := (demo_signed_packet, 100%Q)]}) 0 [] [].

(** * Properties *)

(** ** Bytes and bit arithmetic *)

Lemma byte_to_Z_range (b : byte) : 0 <= byte_to_Z b < 256.
Proof.
  unfold byte_to_Z. pose proof (Byte.to_N_bounded b) as H. lia.
Qed.

Lemma byte_of_to_Z (b : byte) : byte_of_Z (byte_to_Z b) = b.
Proof.
  unfold byte_of_Z, byte_to_Z. rewrite N2Z.id, Byte.of_to_N. reflexivity.
Qed.

Lemma land_shiftl_small (v k d : Z) :
  0 <= k -> 0 <= d < 2 ^ k -> Z.land (Z.shiftl v k) d = 0.
Proof.
  intros Hk Hd. apply Z.bits_inj'. intros n Hn.
  rewrite Z.land_spec, Z.bits_0.
  destruct (Z.lt_ge_cases n k) as [Hlt | Hge].
  - rewrite Z.shiftl_spec_low by lia. reflexivity.
  - destruct (Z.eq_dec d 0) as [-> | Hz].
    + rewrite Z.bits_0. apply andb_false_r.
    + rewrite (Z.bits_above_log2 d n), andb_false_r; [reflexivity | lia |].
      apply Z.lt_le_trans with k; [| lia].
      apply Z.log2_lt_pow2; lia.
Qed.

Lemma lor_shiftl_add (v k d : Z) :
  0 <= k -> 0 <= d < 2 ^ k -> Z.lor (Z.shiftl v k) d = v * 2 ^ k + d.
Proof.
  intros Hk Hd.
  rewrite <- Z.lxor_lor by (apply land_shiftl_small; lia).
  rewrite <- Z.add_nocarry_lxor by (apply land_shiftl_small; lia).
  rewrite Z.shiftl_mul_pow2 by lia. reflexivity.
Qed.

Lemma digit5 (v k : Z) : 0 <= k -> Z.land (Z.shiftr v k) 31 = (v / 2 ^ k) mod 32.
Proof.
  intros Hk. change 31 with (Z.ones 5).
  rewrite Z.land_ones, Z.shiftr_div_pow2 by lia. reflexivity.
Qed.

Lemma digit8 (v k : Z) : 0 <= k -> Z.land (Z.shiftr v k) 255 = (v / 2 ^ k) mod 256.
Proof.
  intros Hk. change 255 with (Z.ones 8).
  rewrite Z.land_ones, Z.shiftr_div_pow2 by lia. reflexivity.
Qed.

Lemma pad5 (v k : Z) : 0 <= k -> Z.land (Z.shiftl v k) 31 = (v * 2 ^ k) mod 32.
Proof.
  intros Hk. change 31 with (Z.ones 5).
  rewrite Z.land_ones, Z.shiftl_mul_pow2 by lia. reflexivity.
Qed.

(** ** The z-base-32 codec *)

Module CryptoFacts.
Import Crypto.

Lemma alphabet_map_at (d : Z) : 0 <= d < 32 -> alphabet_map (alphabet_at d) = Some d.
Proof.
  intros Hd. rewrite <- (Z2Nat.id d) by lia.
  assert (Hn : (Z.to_nat d < 32)%nat) by lia.
  revert Hn. generalize (Z.to_nat d). intros n Hn.
  do 32 (destruct n as [| n]; [reflexivity |]). lia.
Qed.

Lemma decode_loop_app (s1 s2 : string) (v b : Z) (r : bytes) :
  decode_loop (s1 +:+ s2) v b r =
  decode_loop s1 v b r ≫= (λ '(v', b', r'), decode_loop s2 v' b' r').
Proof.
  revert v b r. induction s1 as [| c s1 IH]; intros v b r; simpl; [reflexivity |].
  destruct (alphabet_map c) as [i |]; [| reflexivity].
  destruct (8 <=? b + 5); apply IH.
Qed.

Lemma encode_loop_snoc (pre : bytes) (x : byte) (v b : Z) (r : string) :
  encode_loop (pre ++ [x]) v b r =
  let '(v1, b1, r1) := encode_loop pre v b r in
  let v2 := Z.lor (Z.shiftl v1 8) (byte_to_Z x) in
  let '(b2, r2) := encode_drain (Z.to_nat (b1 + 8)) v2 (b1 + 8) r1 in
  (v2, b2, r2).
Proof.
  revert v b r. induction pre as [| y pre IH]; intros v b r; simpl.
  - destruct (encode_drain _ _ _ _); reflexivity.
  - destruct (encode_drain (Z.to_nat (b + 8)) _ _ _) as [b' r']. apply IH.
Qed.

(** The inner loop emits one symbol when fewer than 2 bits were pending and
    two symbols otherwise; it always leaves fewer than 5 bits. *)
Lemma encode_drain_one (v be : Z) (r : string) :
  0 <= be < 2 ->
  encode_drain (Z.to_nat (be + 8)) v (be + 8) r =
  (be + 3, r +:+ String (alphabet_at (Z.land (Z.shiftr v (be + 3)) 31)) "").
Proof.
  intros H. assert (be = 0 \/ be = 1) as [-> | ->] by lia; reflexivity.
Qed.

Lemma encode_drain_two (v be : Z) (r : string) :
  2 <= be < 5 ->
  encode_drain (Z.to_nat (be + 8)) v (be + 8) r =
  (be - 2, (r +:+ String (alphabet_at (Z.land (Z.shiftr v (be + 3)) 31)) "")
              +:+ String (alphabet_at (Z.land (Z.shiftr v (be - 2)) 31)) "").
Proof.
  intros H. assert (be = 2 \/ be = 3 \/ be = 4) as [-> | [-> | ->]] by lia; reflexivity.
Qed.

(** One more symbol for the decoder, in arithmetic form. *)
Lemma decode_loop_digit (res : string) (d vd bd : Z) (out : bytes) :
  0 <= d < 32 -> 0 <= bd ->
  decode_loop res 0 0 [] = Ok (vd, bd, out) ->
  decode_loop (res +:+ String (alphabet_at d) "") 0 0 [] =
  Ok (if 8 <=? bd + 5
      then (vd * 32 + d, bd - 3, out ++ [byte_of_Z (((vd * 32 + d) / 2 ^ (bd - 3)) mod 256)])
      else (vd * 32 + d, bd + 5, out)).
Proof.
  intros Hd Hbd Hres. rewrite decode_loop_app, Hres. simpl.
  rewrite alphabet_map_at by assumption.
  rewrite (lor_shiftl_add vd 5 d) by (simpl; lia). change (2 ^ 5) with 32.
  destruct (8 <=? bd + 5) eqn:E; simpl; [| reflexivity].
  rewrite digit8 by lia. replace (bd + 5 - 8) with (bd - 3) by lia. reflexivity.
Qed.

Example encode_two_bytes : z_base_32_encode [x00; xff] = "yd9o".
Proof. reflexivity. Qed.

Example decode_two_chars : z_base_32_decode "yy" = Ok [x00].
Proof. reflexivity. Qed.

Lemma codec_inv_nil : codec_inv [] (encode_loop [] 0 0 "").
Proof.
  simpl. repeat split; try lia.
  exists [], [], 0. repeat split; simpl length; try lia; try reflexivity. intros a Ha. discriminate.
Qed.

Ltac norm_pow2 :=
  repeat match goal with
  | |- context [2 ^ ?k] =>
      let r := eval cbv in (2 ^ k) in
      lazymatch r with Zpos _ => change (2 ^ k) with r end
  | H : context [2 ^ ?k] |- _ =>
      let r := eval cbv in (2 ^ k) in
      lazymatch r with Zpos _ => change (2 ^ k) with r in H end
  end.

Ltac divmod := norm_pow2; Z.div_mod_to_equations; lia.

(** Feeding the decoder the symbol the encoder emits for the bits of [w]
    above position [k]. *)
Lemma decode_emitted (res : string) (w k vd bd : Z) (out : bytes) :
  0 <= k -> 0 <= bd -> 0 <= w ->
  vd = w / 2 ^ (k + 5) ->
  decode_loop res 0 0 [] = Ok (vd, bd, out) ->
  decode_loop (res +:+ String (alphabet_at (Z.land (Z.shiftr w k) 31)) "") 0 0 [] =
  Ok (if 8 <=? bd + 5
      then (w / 2 ^ k, bd - 3, out ++ [byte_of_Z ((w / 2 ^ (k + bd - 3)) mod 256)])
      else (w / 2 ^ k, bd + 5, out)).
Proof.
  intros Hk Hbd Hw -> Hdec. rewrite digit5 by assumption.
  assert (H2k : 0 < 2 ^ k) by (apply Z.pow_pos_nonneg; lia).
  rewrite (decode_loop_digit res ((w / 2 ^ k) mod 32) (w / 2 ^ (k + 5)) bd out) by
    (try assumption; apply Z.mod_pos_bound; lia).
  assert (Hsplit : w / 2 ^ (k + 5) * 32 + (w / 2 ^ k) mod 32 = w / 2 ^ k).
  { rewrite Z.pow_add_r, <- Z.div_div by lia. change (2 ^ 5) with 32.
    generalize (w / 2 ^ k). intros q. Z.div_mod_to_equations. lia. }
  rewrite Hsplit.
  destruct (8 <=? bd + 5) eqn:E; [| reflexivity].
  apply Z.leb_le in E.
  replace (k + bd - 3) with (k + (bd - 3)) by lia.
  rewrite (Z.pow_add_r 2 k (bd - 3)), <- Z.div_div by (try apply Z.pow_pos_nonneg; lia).
  reflexivity.
Qed.

Lemma codec_inv_snoc (pre : bytes) (x : byte) :
  codec_inv pre (encode_loop pre 0 0 "") ->
  codec_inv (pre ++ [x]) (encode_loop (pre ++ [x]) 0 0 "").
Proof.
  rewrite encode_loop_snoc.
  destruct (encode_loop pre 0 0 "") as [[v be] res].
  intros (Hv & Hbe & out & rest & bd & Hdec & Hbd & Hpre & Hlen & Hlast).
  pose proof (byte_to_Z_range x) as Hx.
  cbv zeta. rewrite (lor_shiftl_add v 8 (byte_to_Z x)) by (simpl; lia).
  change (2 ^ 8) with 256.
  set (w := v * 256 + byte_to_Z x).
  assert (Hw : 0 <= w) by (unfold w; lia).
  assert (Hwx : w mod 256 = byte_to_Z x) by (unfold w; Z.div_mod_to_equations; lia).
  assert (Hwv : w / 256 = v) by (unfold w; Z.div_mod_to_equations; lia).
  assert (Hvd : v / 2 ^ be = w / 2 ^ (be + 3 + 5)).
  { replace (be + 3 + 5) with (8 + be) by lia.
    rewrite Z.pow_add_r, <- Z.div_div by (try apply Z.pow_pos_nonneg; lia).
    change (2 ^ 8) with 256. rewrite Hwv. reflexivity. }
  pose proof (decode_emitted res w (be + 3) _ bd out
                ltac:(lia) ltac:(lia) Hw Hvd Hdec) as H1.
  destruct rest as [| a [| a' rest']]; simpl in Hlen; [| | lia].
  - (* nothing pending: one symbol, no byte *)
    assert (be = 0) as -> by lia. assert (bd = 0) as -> by lia.
    rewrite encode_drain_one by lia. simpl in H1.
    split; [exact Hw |]. split; [lia |].
    exists out, [x], 5. rewrite app_nil_r in Hpre. subst pre.
    repeat split; simpl length; try lia; try assumption.
    intros a0 Ha0. congruence.
  - (* one byte pending *)
    specialize (Hlast a eq_refl).
    assert (E : (8 <=? bd + 5) = true) by (apply Z.leb_le; lia).
    rewrite E in H1.
    replace (be + 3 + bd - 3) with 8 in H1 by lia. change (2 ^ 8) with 256 in H1.
    rewrite Hwv, Hlast, byte_of_to_Z in H1.
    destruct (Z_lt_ge_dec be 2) as [Hlo | Hhi].
    + rewrite encode_drain_one by lia.
      split; [exact Hw |]. split; [lia |].
      exists (out ++ [a]), [x], (bd - 3). subst pre. rewrite <- app_assoc.
      repeat split; simpl length; try lia; try assumption; try reflexivity.
      intros a0 Ha0. congruence.
    + rewrite encode_drain_two by lia.
      assert (Hvd2 : w / 2 ^ (be + 3) = w / 2 ^ (be - 2 + 5)) by (f_equal; f_equal; lia).
      pose proof (decode_emitted _ w (be - 2) _ (bd - 3) _
                    ltac:(lia) ltac:(lia) Hw Hvd2 H1) as H2.
      split; [exact Hw |]. split; [lia |].
      destruct (Z.eq_dec be 2) as [-> | Hne].
      * assert (bd = 6) as -> by lia.
        change (8 <=? 6 - 3 + 5) with true in H2. cbv iota in H2.
        change (2 - 2 + (6 - 3) - 3) with 0 in H2. change (6 - 3 - 3) with 0 in H2.
        change (2 ^ 0) with 1 in H2.
        rewrite !Z.div_1_r, Hwx, byte_of_to_Z in H2.
        exists ((out ++ [a]) ++ [x]), [], 0. subst pre.
        repeat split; simpl length; try lia.
        -- change (2 ^ (2 - 2)) with 1. rewrite Z.div_1_r. exact H2.
        -- rewrite app_nil_r, <- app_assoc. reflexivity.
        -- intros a0 Ha0. discriminate.
      * assert (E2 : (8 <=? bd - 3 + 5) = false) by (apply Z.leb_gt; lia).
        rewrite E2 in H2.
        exists (out ++ [a]), [x], (bd - 3 + 5). subst pre. rewrite <- app_assoc.
        repeat split; simpl length; try lia; try assumption; try reflexivity.
        intros a0 Ha0. congruence.
Qed.

Lemma codec_inv_encode (data : bytes) : codec_inv data (encode_loop data 0 0 "").
Proof.
  induction data as [| x pre IH] using rev_ind.
  - apply codec_inv_nil.
  - apply codec_inv_snoc, IH.
Qed.

(** The inner loop of the encoder runs to its exit: called as the encoder
    calls it, it leaves fewer than 5 pending bits. *)
Lemma encode_drain_exit (fuel : nat) (v bits : Z) (r : string) :
  (Z.to_nat bits <= fuel)%nat -> fst (encode_drain fuel v bits r) < 5.
Proof.
  revert bits r. induction fuel as [| fuel IH]; intros bits r Hfuel; simpl.
  - lia.
  - destruct (Z.leb_spec 5 bits); simpl; [apply IH; lia | lia].
Qed.

Lemma z_base_32_roundtrip (data : bytes) :
  z_base_32_decode (z_base_32_encode data) = Ok data.
Proof.
  pose proof (codec_inv_encode data) as Hinv.
  unfold z_base_32_encode, z_base_32_decode.
  destruct (encode_loop data 0 0 "") as [[v be] res].
  destruct Hinv as (Hv & Hbe & out & rest & bd & Hdec & Hbd & Hpre & Hlen & Hlast).
  destruct rest as [| a [| a' rest']]; simpl length in Hlen; [| | lia].
  - assert (be = 0) as -> by lia. change (0 <? 0) with false. cbv iota.
    rewrite Hdec. simpl. rewrite app_nil_r in Hpre. congruence.
  - assert (Hpos : (0 <? be) = true) by (apply Z.ltb_lt; lia).
    rewrite Hpos, pad5 by lia.
    specialize (Hlast a eq_refl).
    assert (H2be : 0 < 2 ^ (5 - be)) by (apply Z.pow_pos_nonneg; lia).
    rewrite (decode_loop_digit res ((v * 2 ^ (5 - be)) mod 32) (v / 2 ^ be) bd out)
      by (try assumption; try lia; apply Z.mod_pos_bound; lia).
    assert (E : (8 <=? bd + 5) = true) by (apply Z.leb_le; lia).
    rewrite E. simpl.
    replace (bd - 3) with (5 - be) by lia.
    assert (Hbyte : ((v / 2 ^ be * 32 + (v * 2 ^ (5 - be)) mod 32) / 2 ^ (5 - be)) mod 256
                    = v mod 256).
    { assert (be = 1 \/ be = 2 \/ be = 3 \/ be = 4) as [-> | [-> | [-> | ->]]] by lia;
        divmod. }
    rewrite Hbyte, Hlast, byte_of_to_Z. congruence.
Qed.

Lemma z_base_32_encode_inj (a b : bytes) :
  z_base_32_encode a = z_base_32_encode b -> a = b.
Proof.
  intros H. pose proof (z_base_32_roundtrip a) as Ha.
  rewrite H, z_base_32_roundtrip in Ha. congruence.
Qed.

(** C9: for every 32-byte input [b], decoding the z-base-32 encoding of [b]
    returns [b], so the encoding is injective on 32-byte inputs. *)
Theorem z_base_32_decode_encode_32 (b : bytes) :
  length b = 32%nat ->
  z_base_32_decode (z_base_32_encode b) = Ok b.
Proof.
  intros _. apply z_base_32_roundtrip.
Qed.

Lemma z_base_32_decode_encode_32_witness :
  length (repeat xa7 31 ++ [x01]) = 32%nat /\
  z_base_32_decode (z_base_32_encode (repeat xa7 31 ++ [x01])) = Ok (repeat xa7 31 ++ [x01]).
Proof.
  split; [reflexivity | apply (z_base_32_decode_encode_32 (repeat xa7 31 ++ [x01])); reflexivity].
Defined.

End CryptoFacts.

(** ** Public keys *)

Module PublicKeyFacts.
Import Crypto.

(** The [bytes] path of the constructor checks the length. *)
Lemma init_bytes (b : bytes) :
  (length b = 32%nat -> PublicKeyM.init (KeyBytes b) = Ok (mkPublicKey b)) /\
  (length b <> 32%nat ->
   PublicKeyM.init (KeyBytes b) = Raise (PublicKeyError "Public key must be 32 bytes long")).
Proof.
  unfold PublicKeyM.init. destruct (Nat.eqb_spec (length b) 32); simpl; split; congruence.
Qed.

(** Raw form to text and back is the identity. *)
Lemma init_to_z32 (pk : PublicKey) : PublicKeyM.init (KeyStr (PublicKeyM.to_z32 pk)) = Ok pk.
Proof.
  unfold PublicKeyM.init, PublicKeyM.to_z32.
  rewrite CryptoFacts.z_base_32_roundtrip. destruct pk. reflexivity.
Qed.

(** C8, as the code has it: the textual path of the constructor decodes the
    text and keeps whatever comes out, with no check of its length; the text
    ["yy"] makes a [PublicKey] whose raw key is one byte long. *)
Theorem init_str_keeps_any_length :
  PublicKeyM.init (KeyStr "yy") = Ok (mkPublicKey [x00]) /\
  length (key (mkPublicKey [x00])) = 1%nat /\
  PublicKeyM.init (KeyBytes [x00]) = Raise (PublicKeyError "Public key must be 32 bytes long").
Proof. repeat split. Qed.

(** Text to raw form and back is not the identity on every text that the
    constructor accepts: the last symbol of a 52-symbol text carries four
    bits that the decoder drops. *)
Example text_roundtrip_lossy :
  let text := string_of_list_ascii (repeat "y"%char 51) +:+ "b" in
  exists pk, PublicKeyM.init (KeyStr text) = Ok pk /\ length (key pk) = 32%nat /\
             PublicKeyM.to_z32 pk <> text.
Proof.
  eexists. split; [vm_compute; reflexivity |]. split; [reflexivity |].
  vm_compute. discriminate.
Qed.

(** A character outside the alphabet raises [KeyError], which the
    constructor does not turn into [PublicKeyError]. *)
Example init_str_bad_character : PublicKeyM.init (KeyStr "l") = Raise KeyError.
Proof. reflexivity. Qed.

End PublicKeyFacts.

(** ** The signed-packet protocol *)

Module SignedPacketFacts.
Import SignedPacketM.

Lemma min_from_lower (x : Z) (xs : list Z) :
  min_from x xs <= x /\ Forall (fun y => min_from x xs <= y) xs.
Proof.
  revert x. induction xs as [| y xs IH]; intros x; simpl.
  - split; [lia | constructor].
  - destruct (IH (if y <? x then y else x)) as [Hx Hxs].
    destruct (Z.ltb_spec y x); (split; [lia | constructor; [lia | exact Hxs]]).
Qed.

Lemma min_from_elem (x : Z) (xs : list Z) : min_from x xs ∈ x :: xs.
Proof.
  revert x. induction xs as [| y xs IH]; intros x; simpl.
  - left.
  - specialize (IH (if y <? x then y else x)).
    rewrite !elem_of_cons in *. destruct (y <? x); tauto.
Qed.

(** C7: for [min_ttl <= max_ttl], [ttl] is [min_ttl] when the packet has no
    answer records and otherwise the least record TTL clamped into
    [[min_ttl, max_ttl]]; the result is always within the bounds, and record
    TTLs [[10; 50; 7]] with bounds [(300, 86400)] give [300]. *)
Theorem ttl_clamped (sp : SignedPacket) (min_ttl max_ttl : Z) :
  min_ttl <= max_ttl ->
  (record_ttls sp = [] -> ttl sp min_ttl max_ttl = min_ttl) /\
  (record_ttls sp <> [] ->
     exists m, m ∈ record_ttls sp /\ (forall t, t ∈ record_ttls sp -> m <= t) /\
               ttl sp min_ttl max_ttl = clamp m min_ttl max_ttl) /\
  min_ttl <= ttl sp min_ttl max_ttl <= max_ttl /\
  (record_ttls sp = [10; 50; 7] -> min_ttl = 300 -> max_ttl = 86400 ->
     ttl sp min_ttl max_ttl = 300).
Proof.
  intros Hle. unfold record_ttls, ttl.
  destruct (answers (packet sp)) as [| rr rest]; simpl.
  - repeat split; try lia; try congruence.
  - pose proof (min_from_lower (RR.ttl rr) (map RR.ttl rest)) as [Hx Hxs].
    pose proof (min_from_elem (RR.ttl rr) (map RR.ttl rest)) as Hin.
    set (m := min_from (RR.ttl rr) (map RR.ttl rest)) in *.
    repeat split; try lia; try congruence.
    + intros _. exists m. split; [exact Hin |]. split.
      * intros t Ht. apply elem_of_cons in Ht as [-> | Ht]; [lia |].
        rewrite Forall_forall in Hxs. apply Hxs. exact Ht.
      * unfold clamp. destruct (Z.ltb_spec m min_ttl), (Z.ltb_spec max_ttl m); lia.
    + intros Heq -> ->. injection Heq as H1 H2. subst m. rewrite H1, H2. reflexivity.
Qed.

Lemma ttl_clamped_witness :
  300 <= 86400 /\
  ttl (mkSignedPacket (mkPublicKey []) [] 0
         (Packet_of [RR.mk "a" "IN" 10 "TXT" "x"; RR.mk "b" "IN" 50 "TXT" "y";
                     RR.mk "c" "IN" 7 "TXT" "z"]) 0) 300 86400 = 300.
Proof.
  split; [lia |].
  refine (proj2 (proj2 (proj2 (ttl_clamped _ 300 86400 _))) _ _ _); [lia | reflexivity ..].
Defined.


Lemma encode_app (a b : string) : encode (a +:+ b) = encode a ++ encode b.
Proof.
  unfold encode, list_byte_of_string.
  induction a as [| c a IH]; simpl; [reflexivity | f_equal; exact IH].
Qed.

(** [str_int n] is a decimal numeral that reads back as [n]. *)
Lemma str_int_parse (n : Z) :
  option_map Z.of_int (NilZero.int_of_string (str_int n)) = Some n.
Proof.
  unfold str_int. rewrite NilZero.isi.
  - simpl. rewrite DecimalZ.of_to. reflexivity.
  - destruct n; simpl; intros [= H]; exact (Unsigned.to_uint_nonnil _ H).
  - destruct n; simpl; intros [= H]; exact (Unsigned.to_uint_nonnil _ H).
Qed.

Lemma byte_to_of_Z (m : Z) : 0 <= m < 256 -> byte_to_Z (byte_of_Z m) = m.
Proof.
  intros Hm. unfold byte_to_Z, byte_of_Z.
  destruct (Byte.of_N (Z.to_N m)) as [b |] eqn:E.
  - apply Byte.to_of_N in E. lia.
  - apply Byte.of_N_None_iff in E. lia.
Qed.

Lemma int_from_bytes_snoc (l : bytes) (x : byte) :
  int_from_bytes (l ++ [x]) = int_from_bytes l * 256 + byte_to_Z x.
Proof. unfold int_from_bytes. rewrite fold_left_app. reflexivity. Qed.

Lemma length_be_digits (k : nat) (n : Z) : length (be_digits k n) = k.
Proof.
  revert n. induction k as [| k IH]; intros n; simpl; [reflexivity |].
  rewrite length_app, IH. simpl. lia.
Qed.

Lemma int_from_be_digits (k : nat) (n : Z) :
  0 <= n < 256 ^ Z.of_nat k -> int_from_bytes (be_digits k n) = n.
Proof.
  revert n. induction k as [| k IH]; intros n Hn.
  - simpl in *. change (256 ^ 0) with 1 in Hn. unfold int_from_bytes. simpl. lia.
  - simpl be_digits. rewrite int_from_bytes_snoc.
    rewrite Nat2Z.inj_succ, Z.pow_succ_r in Hn by lia.
    rewrite IH, byte_to_of_Z.
    + Z.div_mod_to_equations. lia.
    + apply Z.mod_pos_bound. lia.
    + Z.div_mod_to_equations. nia.
Qed.

(** The byte layout: [signable t v] is the ASCII text ["3:seqi"], the
    decimal numeral of [t], ["e1:v"], the decimal numeral of [len(v)] and
    [":"], followed by [v]. *)
Lemma signable_bytes (t : Z) (v : bytes) :
  signable t v =
  [x33; x3a; x73; x65; x71; x69] ++ encode (str_int t) ++
  [x65; x31; x3a; x76] ++ encode (str_int (Z.of_nat (length v))) ++ [x3a] ++ v.
Proof.
  unfold signable. rewrite !encode_app, <- !app_assoc. reflexivity.
Qed.

Example signable_sample :
  signable 1700000000000000 [x61; x62] = encode "3:seqi1700000000000000e1:v2:ab".
Proof. reflexivity. Qed.

Section ProtocolFacts.

Variable ed25519_derive : bytes -> bytes.
Variable ed25519_sign : bytes -> bytes -> bytes.
Variable build_bytes_vec_compressed : Packet -> outcome bytes.

Local Abbreviation from_packet := (from_packet ed25519_sign build_bytes_vec_compressed).
Local Abbreviation Keypair_init := (Keypair_init ed25519_derive).
Local Abbreviation as_bytes := (as_bytes build_bytes_vec_compressed).

(** Past the two length checks, [from_bytes] stops at [public_key.verify]:
    the [PublicKey] it has just built is the class of l.7-13. *)
Lemma from_bytes_in_range (t : Z) (data : bytes) :
  (104 <= length data <= 1104)%nat -> from_bytes t data = Raise AttributeError.
Proof.
  intros [Hlo Hhi]. unfold SignedPacketM.from_bytes.
  destruct (Nat.ltb_spec (length data) 104) as [? | _]; [lia |].
  destruct (Nat.ltb_spec 1104 (length data)) as [? | _]; [lia |].
  reflexivity.
Qed.

Lemma from_bytes_short (t : Z) (data : bytes) :
  (length data < 104)%nat ->
  from_bytes t data = Raise (ValueError "Invalid SignedPacket bytes length").
Proof.
  intros H. unfold SignedPacketM.from_bytes.
  destruct (Nat.ltb_spec (length data) 104); [reflexivity | lia].
Qed.

Lemma from_bytes_long (t : Z) (data : bytes) :
  (1104 < length data)%nat -> from_bytes t data = Raise (ValueError "Packet too large").
Proof.
  intros H. unfold SignedPacketM.from_bytes.
  destruct (Nat.ltb_spec (length data) 104); [lia |].
  destruct (Nat.ltb_spec 1104 (length data)); [reflexivity | lia].
Qed.

(** C4, as the code has it: [from_bytes] raises [ValueError("Invalid
    SignedPacket bytes length")] exactly for inputs shorter than 104 bytes
    and [ValueError("Packet too large")] exactly for inputs longer than 1104
    bytes, so 103 and 1105 bytes are rejected; but an input of 104 to 1104
    bytes is never accepted, whatever its signature: [from_bytes] raises
    [AttributeError] on it, and it returns a packet for no input at all. *)
Theorem from_bytes_length_errors (t : Z) (data : bytes) :
  (from_bytes t data = Raise (ValueError "Invalid SignedPacket bytes length")
     <-> (length data < 104)%nat) /\
  (from_bytes t data = Raise (ValueError "Packet too large")
     <-> (1104 < length data)%nat) /\
  (length data = 103%nat ->
     from_bytes t data = Raise (ValueError "Invalid SignedPacket bytes length")) /\
  (length data = 1105%nat ->
     from_bytes t data = Raise (ValueError "Packet too large")) /\
  (from_bytes t data = Raise AttributeError <-> (104 <= length data <= 1104)%nat) /\
  (forall sp, from_bytes t data <> Ok sp).
Proof.
  destruct (Nat.lt_ge_cases (length data) 104) as [Hlt | Hge].
  - rewrite (from_bytes_short t data Hlt).
    repeat split; try congruence; try lia; intros; try discriminate; lia.
  - destruct (Nat.lt_ge_cases 1104 (length data)) as [Hgt | Hle].
    + rewrite (from_bytes_long t data Hgt).
      repeat split; try congruence; try lia; intros; try discriminate; lia.
    + rewrite (from_bytes_in_range t data) by lia.
      repeat split; try congruence; try lia; intros; try discriminate; lia.
Qed.

(** What [from_packet] does with a packet that encodes within the bound:
    it signs the signable bytes and then fails at [keypair.public_key()]. *)
Lemma from_packet_signs (t_sign t_seen : Z) (kp : Keypair) (p : Packet) (enc : bytes) :
  length (secret_key kp) = 32%nat ->
  build_bytes_vec_compressed p = Ok enc ->
  (length enc <= 1000)%nat ->
  from_packet t_sign t_seen kp p = (Raise TypeError, [signable t_sign enc]).
Proof.
  intros Hsk Henc Hlen. unfold SignedPacketM.from_packet. rewrite Henc.
  destruct (Nat.ltb_spec 1000 (length enc)); [lia |].
  unfold Keypair_sign, Crypto_sign. rewrite Hsk. reflexivity.
Qed.

(** [from_packet] returns for no key pair and no packet. *)
Lemma from_packet_never_returns (t_sign t_seen : Z) (kp : Keypair) (p : Packet) :
  exists e, fst (from_packet t_sign t_seen kp p) = Raise e.
Proof.
  unfold SignedPacketM.from_packet.
  destruct (build_bytes_vec_compressed p) as [enc | e]; [| exists e; reflexivity].
  destruct (1000 <? length enc)%nat; [eexists; reflexivity |].
  unfold Keypair_sign, Crypto_sign.
  destruct (negb (length (secret_key kp) =? 32)%nat); eexists; reflexivity.
Qed.

(** C6, as the code has it: [signable] has the stated byte layout, with
    decimal numerals that read back as the timestamp and the length, and
    [from_packet] hands exactly [signable(timestamp, encoded_packet)] to
    [keypair.sign], once, when the packet encodes to at most 1000 bytes, and
    nothing otherwise.  [from_bytes] verifies nothing: on every input of
    admissible length it raises [AttributeError] at [public_key.verify],
    whatever the signature bytes are. *)
Theorem signable_is_signed_payload :
  (forall (t : Z) (v : bytes),
     signable t v =
     encode "3:seqi" ++ encode (str_int t) ++ encode "e1:v" ++
     encode (str_int (Z.of_nat (length v))) ++ encode ":" ++ v) /\
  (forall n : Z, option_map Z.of_int (NilZero.int_of_string (str_int n)) = Some n) /\
  (forall (t_sign t_seen : Z) (kp : Keypair) (p : Packet) (enc : bytes),
     build_bytes_vec_compressed p = Ok enc ->
     snd (from_packet t_sign t_seen kp p) =
       if (1000 <? length enc)%nat then [] else [signable t_sign enc]) /\
  (forall (t_sign t_seen : Z) (kp : Keypair) (p : Packet) (e : exn),
     build_bytes_vec_compressed p = Raise e ->
     snd (from_packet t_sign t_seen kp p) = []) /\
  (forall (t : Z) (data data' : bytes),
     (104 <= length data <= 1104)%nat ->
     length data' = length data ->
     from_bytes t data = Raise AttributeError /\ from_bytes t data' = from_bytes t data).
Proof.
  split; [| split; [| split; [| split]]].
  - intros t v. unfold signable. rewrite !encode_app, <- !app_assoc. reflexivity.
  - exact str_int_parse.
  - intros t_sign t_seen kp p enc Henc. unfold SignedPacketM.from_packet. rewrite Henc.
    destruct (1000 <? length enc)%nat; reflexivity.
  - intros t_sign t_seen kp p e He. unfold SignedPacketM.from_packet. rewrite He.
    reflexivity.
  - intros t data data' Hlen Heq.
    rewrite !from_bytes_in_range by lia. split; reflexivity.
Qed.

Lemma Keypair_init_ok (sk : bytes) (kp : Keypair) :
  Keypair_init sk = Ok kp ->
  length sk = 32%nat /\ length (ed25519_derive sk) = 32%nat /\
  kp = mkKeypair sk (mkPublicKey (ed25519_derive sk)).
Proof.
  unfold SignedPacketM.Keypair_init, Crypto_derive_public_key, PublicKeyM.init.
  destruct (Nat.eqb_spec (length sk) 32) as [Hsk | ?]; simpl; [| discriminate].
  destruct (Nat.eqb_spec (length (ed25519_derive sk)) 32) as [Hpk | ?]; simpl;
    [| discriminate].
  intros [= <-]. auto.
Qed.

Lemma take_app_exact {A} (n : nat) (l1 l2 : list A) :
  length l1 = n -> take n (l1 ++ l2) = l1.
Proof. intros <-. apply take_app_length. Qed.

Lemma drop_app_exact {A} (n : nat) (l1 l2 : list A) :
  length l1 = n -> drop n (l1 ++ l2) = l2.
Proof. intros <-. apply drop_app_length. Qed.

(** C1, as the code has it: the round trip does not run.  For every key
    pair and every packet that encodes to at most 1000 bytes, [from_packet]
    signs the signable bytes and then raises [TypeError] at
    [keypair.public_key()]; and the wire form of the packet it was about to
    return, assembled by hand, has an admissible length and makes
    [from_bytes] raise [AttributeError]. *)
Theorem roundtrip_raises
    (sk : bytes) (kp : Keypair) (p : Packet) (enc : bytes) (t_sign t_seen t_seen' : Z) :
  (forall k m, length (ed25519_sign k m) = 64%nat) ->
  Keypair_init sk = Ok kp ->
  build_bytes_vec_compressed p = Ok enc ->
  (length enc <= 1000)%nat ->
  0 <= t_sign < 2 ^ 64 ->
  from_packet t_sign t_seen kp p = (Raise TypeError, [signable t_sign enc]) /\
  exists data,
    as_bytes (mkSignedPacket (public_key kp) (ed25519_sign sk (signable t_sign enc))
                t_sign p t_seen) = Ok data /\
    (104 <= length data <= 1104)%nat /\
    from_bytes t_seen' data = Raise AttributeError.
Proof.
  intros Hsig Hkp Henc Hlen Ht.
  apply Keypair_init_ok in Hkp as (Hsk & Hpk & ->).
  split; [apply from_packet_signs; assumption |].
  set (sig := ed25519_sign sk (signable t_sign enc)).
  exists (ed25519_derive sk ++ sig ++ be_digits 8 t_sign ++ enc).
  assert (Hts : int_to_bytes 8 t_sign = Ok (be_digits 8 t_sign)).
  { unfold int_to_bytes. change (256 ^ Z.of_nat 8) with (2 ^ 64).
    destruct (Z.leb_spec 0 t_sign); [| lia].
    destruct (Z.ltb_spec t_sign (2 ^ 64)); [reflexivity | lia]. }
  assert (Hsiglen : length sig = 64%nat) by apply Hsig.
  assert (Hdata : (104 <= length (ed25519_derive sk ++ sig ++ be_digits 8 t_sign ++ enc)
                     <= 1104)%nat)
    by (rewrite !length_app, Hpk, Hsiglen, length_be_digits; lia).
  split; [| split; [exact Hdata | apply from_bytes_in_range; exact Hdata]].
  unfold SignedPacketM.as_bytes. simpl. rewrite Hts. simpl. rewrite Henc. reflexivity.
Qed.

End ProtocolFacts.

Lemma demo_sign_length (k m : bytes) : length (demo_sign k m) = 64%nat.
Proof.
  unfold demo_sign. rewrite length_take, !length_app, repeat_length. lia.
Qed.

Lemma demo_verify_sign (k m : bytes) : demo_verify (demo_derive k) m (demo_sign k m) = true.
Proof. unfold demo_verify, demo_derive. apply bool_decide_eq_true. reflexivity. Qed.

Lemma roundtrip_raises_witness :
  from_packet demo_sign demo_codec 1700000000000000 1700000000000001
    demo_keypair demo_packet
    = (Raise TypeError, [signable 1700000000000000 [x1e]]) /\
  exists data,
    as_bytes demo_codec
      (mkSignedPacket (public_key demo_keypair)
         (demo_sign demo_secret (signable 1700000000000000 [x1e]))
         1700000000000000 demo_packet 1700000000000001) = Ok data /\
    (104 <= length data <= 1104)%nat /\
    from_bytes 1700000000000002 data = Raise AttributeError.
Proof.
  apply (roundtrip_raises demo_derive demo_sign demo_codec
           demo_secret demo_keypair demo_packet [x1e]
           1700000000000000 1700000000000001 1700000000000002).
  - exact demo_sign_length.
  - reflexivity.
  - reflexivity.
  - simpl. lia.
  - lia.
Defined.

(** C4 at the boundary: a 104-byte buffer (key, signature, timestamp and an
    empty encoded packet) whose signature verifies is not accepted. *)
Example from_bytes_104_raises :
  length demo_wire = 104%nat /\
  demo_verify (slice 0 32 demo_wire)
    (signable (int_from_bytes (slice 96 104 demo_wire)) (drop 104 demo_wire))
    (slice 32 96 demo_wire) = true /\
  from_bytes 9 demo_wire = Raise AttributeError.
Proof. vm_compute. repeat split. Qed.

(** The same buffer with its signature zeroed meets the same end: no
    signature is looked at. *)
Example from_bytes_forged_raises :
  let forged := demo_secret ++ repeat x00 64 ++ be_digits 8 5 in
  demo_verify (slice 0 32 forged)
    (signable (int_from_bytes (slice 96 104 forged)) (drop 104 forged))
    (slice 32 96 forged) = false /\
  from_bytes 9 forged = Raise AttributeError.
Proof. vm_compute. repeat split. Qed.

Example from_bytes_103_rejected :
  from_bytes 9 (repeat x00 103) = Raise (ValueError "Invalid SignedPacket bytes length").
Proof. reflexivity. Qed.

Example from_bytes_1105_rejected :
  from_bytes 9 (repeat x00 1105) = Raise (ValueError "Packet too large").
Proof. vm_compute. reflexivity. Qed.

End SignedPacketFacts.

(** ** The lookup engine *)

Module ClientFacts.
Import Client.

Lemma Qltb_lt (a b : Q) : Qltb a b = true <-> (a < b)%Q.
Proof.
  unfold Qltb. rewrite negb_true_iff. split.
  - intros H. apply Qnot_le_lt. intros Hle. apply Qle_bool_iff in Hle. congruence.
  - intros H. destruct (Qle_bool b a) eqn:E; [| reflexivity].
    apply Qle_bool_iff in E. exfalso. exact (Qlt_not_le _ _ H E).
Qed.

(** [_decode_nodes] runs to the end of its input: every turn consumes 26
    bytes, so the length of the input is fuel enough. *)
Lemma decode_nodes_loop_fuel (fuel1 fuel2 : nat) (data : bytes) (acc : list string) :
  (length data <= fuel1)%nat -> (length data <= fuel2)%nat ->
  decode_nodes_loop fuel1 data acc = decode_nodes_loop fuel2 data acc.
Proof.
  revert fuel2 data acc.
  induction fuel1 as [| fuel1 IH]; intros fuel2 data acc H1 H2.
  - destruct data; [| simpl in H1; lia]. destruct fuel2; reflexivity.
  - destruct data as [| x data]; [destruct fuel2; reflexivity |].
    destruct fuel2 as [| fuel2]; [simpl in H2; lia |].
    cbn [decode_nodes_loop].
    destruct (inet_ntoa _); simpl; [| reflexivity].
    destruct (unpack_H _); simpl; [| reflexivity].
    apply IH; rewrite length_drop; simpl in *; lia.
Qed.

Section LookupFacts.

Variable clock : nat -> Q.
Variable set_pop : gset string -> string.

Local Abbreviation lookup_finish := (lookup_finish clock).
Local Abbreviation lookup_loop := (lookup_loop clock set_pop).
Local Abbreviation lookup_miss := (lookup_miss clock set_pop).
Local Abbreviation lookup_calling := (lookup_calling clock set_pop).
Local Abbreviation lookup := (lookup clock set_pop).

(** *** What the end of a lookup leaves alone *)

Lemma lookup_finish_frame self attempts max_attempts res self' :
  lookup_finish self attempts max_attempts = (res, self') ->
  res = Ok None /\ queried self' = queried self /\ cache self' = cache self /\
  requests self' = requests self /\ known_nodes self' = known_nodes self /\
  bootstrap_nodes self' = bootstrap_nodes self.
Proof.
  unfold Client.lookup_finish. simpl. intros H. case_match; simplify_eq; auto 10.
Qed.

Section LoopFacts.

Variable call : client -> string -> PublicKey ->
                outcome (option (SignedPacket + list string)) * client.

(** *** No node is queried twice, and the attempts are capped *)

(** The nodes popped by the loop are pairwise distinct and new, and there
    are at most [max_attempts - attempts] of them: the bound comes from the
    test [attempts < max_attempts], whatever the [fuel]. *)
Lemma lookup_loop_trace fuel pk tk max_attempts timeout start frontier queried_nodes
    attempts self res self' :
  (forall c n k, queried (snd (call c n k)) = queried c) ->
  (forall s : gset string, s ≠ ∅ -> set_pop s ∈ s) ->
  frontier ## queried_nodes ->
  lookup_loop call fuel pk tk max_attempts timeout start frontier queried_nodes attempts self
    = (res, self') ->
  exists tr, queried self' = queried self ++ tr /\ NoDup tr /\
             (forall n, n ∈ tr -> n ∉ queried_nodes) /\
             Z.of_nat (length tr) <= Z.max 0 (max_attempts - attempts).
Proof.
  intros Hq Hpop. revert frontier queried_nodes attempts self.
  induction fuel as [| fuel IH]; intros frontier queried_nodes attempts self Hdisj H.
  - simpl in H. apply lookup_finish_frame in H as (_ & Hr & _).
    exists []. rewrite app_nil_r.
    repeat split; [assumption | constructor | set_solver | simpl; lia].
  - simpl in H.
    assert (Hstop : forall c, queried c = queried self ->
              lookup_finish c attempts max_attempts = (res, self') ->
              exists tr, queried self' = queried self ++ tr /\ NoDup tr /\
                         (forall n, n ∈ tr -> n ∉ queried_nodes) /\
                         Z.of_nat (length tr) <= Z.max 0 (max_attempts - attempts)).
    { intros c Hc Hf. apply lookup_finish_frame in Hf as (_ & Hr & _).
      exists []. rewrite app_nil_r, Hr, Hc.
      repeat split; [constructor | set_solver | simpl; lia]. }
    destruct (decide (frontier = ∅)) as [| Hne]; [eapply Hstop; [reflexivity | exact H] |].
    destruct (Z.ltb_spec attempts max_attempts) as [Hlt | Hge]; simpl in H;
      [| eapply Hstop; [reflexivity | exact H]].
    destruct (Qltb _ _); simpl in H; [| eapply Hstop; [| exact H]; reflexivity].
    set (node := set_pop frontier) in *.
    assert (Hin : node ∈ frontier) by (apply Hpop, Hne).
    pose proof (Hq (note_query (tick self) node) node tk) as Hq1.
    destruct (call (note_query (tick self) node) node tk) as [r self1] eqn:Hreq.
    simpl in Hq1.
    assert (Hone : queried self' = queried self1 ->
              exists tr, queried self' = queried self ++ tr /\ NoDup tr /\
                         (forall n, n ∈ tr -> n ∉ queried_nodes) /\
                         Z.of_nat (length tr) <= Z.max 0 (max_attempts - attempts)).
    { intros ->. exists [node]. rewrite Hq1.
      repeat split; [apply NoDup_singleton | | simpl; lia].
      intros n Hn. apply list_elem_of_singleton in Hn as ->. set_solver. }
    assert (Hcont : forall frontier',
              frontier' ## queried_nodes ∪ {[node]} ->
              lookup_loop call fuel pk tk max_attempts timeout start frontier'
                (queried_nodes ∪ {[node]}) (attempts + 1) self1 = (res, self') ->
              exists tr, queried self' = queried self ++ tr /\ NoDup tr /\
                         (forall n, n ∈ tr -> n ∉ queried_nodes) /\
                         Z.of_nat (length tr) <= Z.max 0 (max_attempts - attempts)).
    { intros frontier' Hd' Hl. apply IH in Hl as (tr & Htr & Hnd & Hnew & Hlen); [| exact Hd'].
      exists (node :: tr). rewrite Htr, Hq1, <- app_assoc. simpl length.
      repeat split.
      - constructor; [| exact Hnd]. intros Hn. apply Hnew in Hn. set_solver.
      - intros n Hn. apply elem_of_cons in Hn as [-> | Hn]; [set_solver |].
        apply Hnew in Hn. set_solver.
      - lia. }
    destruct r as [[[result | result] |] | e].
    + simpl in H. injection H as _ <-. apply Hone. reflexivity.
    + apply Hcont in H; [exact H |]. destruct result; set_solver.
    + apply Hcont in H; [exact H | set_solver].
    + destruct (is_PkarrError e).
      * apply Hcont in H; [exact H | set_solver].
      * injection H as _ <-. apply Hone. reflexivity.
Qed.

(** *** The loop runs to its exit *)

(** The attempts left bound the turns of the [while] loop: any [fuel] that
    covers them gives the same run, so [lookup] returns what the loop of the
    source returns. *)
Lemma lookup_loop_fuel fuel1 fuel2 pk tk max_attempts timeout start frontier queried_nodes
    attempts self :
  (Z.to_nat (max_attempts - attempts) <= fuel1)%nat ->
  (Z.to_nat (max_attempts - attempts) <= fuel2)%nat ->
  lookup_loop call fuel1 pk tk max_attempts timeout start frontier queried_nodes attempts self =
  lookup_loop call fuel2 pk tk max_attempts timeout start frontier queried_nodes attempts self.
Proof.
  revert fuel2 frontier queried_nodes attempts self.
  induction fuel1 as [| fuel1 IH]; intros fuel2 frontier queried_nodes attempts self H1 H2.
  - destruct fuel2 as [| fuel2]; [reflexivity |]. simpl.
    destruct (decide (frontier = ∅)); [reflexivity |].
    destruct (Z.ltb_spec attempts max_attempts); [lia | reflexivity].
  - destruct fuel2 as [| fuel2]; simpl.
    + destruct (decide (frontier = ∅)); [reflexivity |].
      destruct (Z.ltb_spec attempts max_attempts); [lia | reflexivity].
    + destruct (decide (frontier = ∅)); [reflexivity |].
      destruct (Z.ltb_spec attempts max_attempts); simpl; [| reflexivity].
      destruct (Qltb _ _); simpl; [| reflexivity].
      destruct (call _ _ _) as [[[[result | result] |] | e] self1];
        try reflexivity; try (apply IH; lia).
      destruct (is_PkarrError e); [apply IH; lia | reflexivity].
Qed.

(** *** What the loop hands back *)

(** The loop hands back no packet, whatever the call returns: it ends with
    [None] or with an exception, and a packet from the call ends it with
    [NameError]. *)
Lemma lookup_loop_result fuel pk tk max_attempts timeout start frontier queried_nodes attempts
    self res self' :
  lookup_loop call fuel pk tk max_attempts timeout start frontier queried_nodes attempts self
    = (res, self') ->
  res = Ok None \/ exists e, res = Raise e.
Proof.
  revert frontier queried_nodes attempts self.
  induction fuel as [| fuel IH]; intros frontier queried_nodes attempts self H.
  - simpl in H. apply lookup_finish_frame in H as (-> & _). auto.
  - simpl in H.
    assert (Hstop : forall c, lookup_finish c attempts max_attempts = (res, self') ->
              res = Ok None \/ exists e, res = Raise e).
    { intros c Hf. apply lookup_finish_frame in Hf as (-> & _). auto. }
    destruct (decide (frontier = ∅)); [eapply Hstop; exact H |].
    destruct (attempts <? max_attempts); simpl in H; [| eapply Hstop; exact H].
    destruct (Qltb _ _); simpl in H; [| eapply Hstop; exact H].
    destruct (call (note_query (tick self) (set_pop frontier)) (set_pop frontier) tk)
      as [r self1].
    destruct r as [[[result | result] |] | e].
    + simpl in H. injection H as <- _. eauto.
    + apply IH in H. exact H.
    + apply IH in H. exact H.
    + destruct (is_PkarrError e).
      * apply IH in H. exact H.
      * injection H as <- _. eauto.
Qed.

(** The loop writes no cache entry. *)
Lemma lookup_loop_cache fuel pk tk max_attempts timeout start frontier queried_nodes attempts
    self res self' :
  (forall c n k, cache (snd (call c n k)) = cache c) ->
  lookup_loop call fuel pk tk max_attempts timeout start frontier queried_nodes attempts self
    = (res, self') ->
  cache self' = cache self.
Proof.
  intros Hc. revert frontier queried_nodes attempts self.
  induction fuel as [| fuel IH]; intros frontier queried_nodes attempts self H.
  - simpl in H. apply lookup_finish_frame in H as (_ & _ & Hcache & _). exact Hcache.
  - simpl in H.
    assert (Hstop : forall c, cache c = cache self ->
              lookup_finish c attempts max_attempts = (res, self') ->
              cache self' = cache self).
    { intros c Hcc Hf. apply lookup_finish_frame in Hf as (_ & _ & Hcache & _). congruence. }
    destruct (decide (frontier = ∅)); [eapply Hstop; [reflexivity | exact H] |].
    destruct (attempts <? max_attempts); simpl in H;
      [| eapply Hstop; [reflexivity | exact H]].
    destruct (Qltb _ _); simpl in H; [| eapply Hstop; [| exact H]; reflexivity].
    pose proof (Hc (note_query (tick self) (set_pop frontier)) (set_pop frontier) tk) as Hc1.
    destruct (call (note_query (tick self) (set_pop frontier)) (set_pop frontier) tk)
      as [r self1] eqn:Hreq.
    simpl in Hc1.
    destruct r as [[[result | result] |] | e].
    + simpl in H. injection H as _ <-. simpl. exact Hc1.
    + apply IH in H. rewrite Hc1 in H. exact H.
    + apply IH in H. rewrite Hc1 in H. exact H.
    + destruct (is_PkarrError e).
      * apply IH in H. rewrite Hc1 in H. exact H.
      * injection H as _ <-. exact Hc1.
Qed.

(** A packet that a lookup returns is the fresh entry that the cache held
    for the key when the lookup began. *)
Lemma lookup_calling_packet self K max_attempts timeout p self' :
  lookup_calling call self K max_attempts timeout = (Ok (Some p), self') ->
  exists entries e,
    cache self = Some entries /\ entries !! K = Some (p, e) /\
    (clock (clock_reads self) < e)%Q /\ self' = tick (tick self).
Proof.
  intros H. unfold Client.lookup_calling in H.
  assert (Hmiss : forall c tk,
            lookup_miss call c K tk max_attempts timeout = (Ok (Some p), self') -> False).
  { intros c tk Hl. unfold Client.lookup_miss, time_time in Hl. cbv beta iota zeta in Hl.
    apply lookup_loop_result in Hl as [? | [e ?]]; discriminate. }
  destruct (PublicKeyM.init (KeyStr K)) as [tk | err]; [| discriminate].
  destruct (cache self) as [entries |]; [| discriminate].
  destruct (entries !! K) as [[cp ex] |] eqn:Hget; [| exfalso; eapply Hmiss; exact H].
  simpl in H. destruct (Qltb (clock (clock_reads self)) ex) eqn:Hfresh;
    [| exfalso; eapply Hmiss; exact H].
  injection H as -> <-. exists entries, ex.
  split; [reflexivity |]. split; [exact Hget |].
  split; [apply Qltb_lt; exact Hfresh | reflexivity].
Qed.

Lemma lookup_calling_cache self K max_attempts timeout res self' :
  (forall c n k, cache (snd (call c n k)) = cache c) ->
  lookup_calling call self K max_attempts timeout = (res, self') ->
  cache self' = cache self.
Proof.
  intros Hc H. unfold Client.lookup_calling in H.
  assert (Hmiss : forall c tk, cache c = cache self ->
            lookup_miss call c K tk max_attempts timeout = (res, self') ->
            cache self' = cache self).
  { intros c tk Hcc Hl. unfold Client.lookup_miss, time_time in Hl.
    cbv beta iota zeta in Hl.
    apply lookup_loop_cache in Hl; [| exact Hc]. simpl in Hl. congruence. }
  destruct (PublicKeyM.init (KeyStr K)) as [tk | err]; [| congruence].
  destruct (cache self) as [entries |] eqn:Hcache; [| congruence].
  destruct (entries !! K) as [[cp ex] |].
  - simpl in H. destruct (Qltb _ _).
    + injection H as _ <-. exact Hcache.
    + eapply Hmiss; [| exact H]. exact Hcache.
  - eapply Hmiss; [| exact H]. exact Hcache.
Qed.

Lemma lookup_calling_trace self K max_attempts timeout res self' :
  (forall c n k, queried (snd (call c n k)) = queried c) ->
  (forall s : gset string, s ≠ ∅ -> set_pop s ∈ s) ->
  0 <= max_attempts ->
  lookup_calling call self K max_attempts timeout = (res, self') ->
  exists tr, queried self' = queried self ++ tr /\ NoDup tr /\
             Z.of_nat (length tr) <= max_attempts.
Proof.
  intros Hq Hpop Hmax H. unfold Client.lookup_calling in H.
  assert (Hnone : queried self' = queried self ->
            exists tr, queried self' = queried self ++ tr /\ NoDup tr /\
                       Z.of_nat (length tr) <= max_attempts).
  { intros ->. exists []. rewrite app_nil_r. repeat split; [constructor | simpl; lia]. }
  assert (Hmiss : forall c tk, queried c = queried self ->
            lookup_miss call c K tk max_attempts timeout = (res, self') ->
            exists tr, queried self' = queried self ++ tr /\ NoDup tr /\
                       Z.of_nat (length tr) <= max_attempts).
  { intros c tk Hcq Hl. unfold Client.lookup_miss, time_time in Hl.
    cbv beta iota zeta in Hl.
    apply lookup_loop_trace in Hl as (tr & Htr & Hnd & _ & Hlen);
      [| exact Hq | exact Hpop | set_solver].
    exists tr. simpl in Htr. rewrite Htr, Hcq. repeat split; [exact Hnd | lia]. }
  destruct (PublicKeyM.init (KeyStr K)) as [tk | e];
    [| injection H as _ <-; apply Hnone; reflexivity].
  destruct (cache self) as [entries |];
    [| injection H as _ <-; apply Hnone; reflexivity].
  destruct (entries !! K) as [[cp ex] |]; [| eapply Hmiss; [reflexivity | exact H]].
  simpl in H. destruct (Qltb _ _).
  - injection H as _ <-. apply Hnone. reflexivity.
  - eapply Hmiss; [| exact H]. reflexivity.
Qed.

(** The first attempt of a lookup that misses the cache, with a frontier
    that is not empty, a positive budget and time left: a packet from the
    call ends the lookup at the names that the module does not bind, and an
    exception that is no [PkarrError] leaves the lookup. *)
Lemma lookup_calling_first self K tk entries max_attempts timeout :
  PublicKeyM.init (KeyStr K) = Ok tk ->
  cache self = Some entries ->
  entries !! K = None ->
  bootstrap_nodes self <> [] ->
  0 < max_attempts ->
  (clock (S (clock_reads self)) - clock (clock_reads self) < inject_Z timeout)%Q ->
  let node := set_pop (list_to_set (bootstrap_nodes self)) in
  (forall sp c,
     call (note_query (tick (tick self)) node) node tk = (Ok (Some (inl sp)), c) ->
     lookup_calling call self K max_attempts timeout = (Raise NameError, tick (tick c))) /\
  (forall e c,
     call (note_query (tick (tick self)) node) node tk = (Raise e, c) ->
     is_PkarrError e = false ->
     lookup_calling call self K max_attempts timeout = (Raise e, c)).
Proof.
  intros Hinit Hcache Hget Hboot Hmax Hclock node.
  assert (Hne : (list_to_set (bootstrap_nodes self) : gset string) ≠ ∅).
  { destruct (bootstrap_nodes self) as [| n l]; [contradiction |].
    intros He. assert (Hn : n ∈ (list_to_set (n :: l) : gset string)) by set_solver.
    rewrite He in Hn. set_solver. }
  assert (Hltb : (0 <? max_attempts) = true) by (apply Z.ltb_lt; lia).
  apply Qltb_lt in Hclock.
  assert (Hunfold : lookup_calling call self K max_attempts timeout =
            match call (note_query (tick (tick self)) node) node tk with
            | (Ok (Some (inl _)), c) => (Raise NameError, tick (tick c))
            | (Raise e, c) =>
                if is_PkarrError e
                then lookup_calling call self K max_attempts timeout
                else (Raise e, c)
            | _ => lookup_calling call self K max_attempts timeout
            end ->
            True) by auto.
  clear Hunfold.
  split.
  - intros sp c Hcall. unfold Client.lookup_calling, Client.lookup_miss.
    rewrite Hinit, Hcache, Hget. simpl.
    destruct (decide _) as [He | _]; [contradiction |].
    rewrite Hltb. simpl. rewrite Hclock. simpl. fold node. rewrite Hcall. reflexivity.
  - intros e c Hcall He. unfold Client.lookup_calling, Client.lookup_miss.
    rewrite Hinit, Hcache, Hget. simpl.
    destruct (decide _) as [He' | _]; [contradiction |].
    rewrite Hltb. simpl. rewrite Hclock. simpl. fold node. rewrite Hcall, He. reflexivity.
Qed.

End LoopFacts.

(** *** The call that the code makes *)

Lemma lookup_miss_code self K tk max_attempts timeout :
  lookup_miss _request_packet_of_two self K tk max_attempts timeout =
  if decide (list_to_set (bootstrap_nodes self) = (∅ : gset string))
  then lookup_finish (tick self) 0 max_attempts
  else if negb (0 <? max_attempts) then lookup_finish (tick self) 0 max_attempts
  else if negb (Qltb (clock (S (clock_reads self)) - clock (clock_reads self))
                  (inject_Z timeout))
  then lookup_finish (tick (tick self)) 0 max_attempts
  else (Raise TypeError,
        note_query (tick (tick self)) (set_pop (list_to_set (bootstrap_nodes self)))).
Proof.
  unfold Client.lookup_miss. simpl.
  destruct (decide _); [reflexivity |].
  destruct (0 <? max_attempts); simpl; [| reflexivity].
  destruct (Qltb _ _); reflexivity.
Qed.

(** The whole of [lookup], as the code runs it. *)
Lemma lookup_code self K max_attempts timeout :
  lookup self K max_attempts timeout =
  match PublicKeyM.init (KeyStr K) with
  | Raise e => (Raise e, self)
  | Ok tk =>
      match cache self with
      | None => (Raise AttributeError, self)
      | Some entries =>
          match entries !! K with
          | Some (cached_packet, expiration_time) =>
              if Qltb (clock (clock_reads self)) expiration_time
              then (Ok (Some cached_packet), tick (tick self))
              else lookup_miss _request_packet_of_two (tick self) K tk max_attempts timeout
          | None => lookup_miss _request_packet_of_two self K tk max_attempts timeout
          end
      end
  end.
Proof.
  unfold Client.lookup, Client.lookup_calling.
  destruct (PublicKeyM.init (KeyStr K)); [| reflexivity].
  destruct (cache self) as [entries |]; [| reflexivity].
  destruct (entries !! K) as [[cp ex] |]; reflexivity.
Qed.

(** A miss pops one node at most. *)
Lemma lookup_miss_code_trace self K tk max_attempts timeout res self' :
  lookup_miss _request_packet_of_two self K tk max_attempts timeout = (res, self') ->
  queried self' = queried self \/
  (exists node, queried self' = queried self ++ [node] /\ res = Raise TypeError).
Proof.
  rewrite lookup_miss_code. intros H.
  assert (Hstop : forall c, queried c = queried self ->
            lookup_finish c 0 max_attempts = (res, self') ->
            queried self' = queried self \/
            (exists node, queried self' = queried self ++ [node] /\ res = Raise TypeError)).
  { intros c Hc Hf. apply lookup_finish_frame in Hf as (_ & Hq & _). left. congruence. }
  destruct (decide _); [eapply Hstop; [| exact H]; reflexivity |].
  destruct (negb (0 <? max_attempts)); [eapply Hstop; [| exact H]; reflexivity |].
  destruct (negb (Qltb _ _)); [eapply Hstop; [| exact H]; reflexivity |].
  injection H as <- <-. right. eexists. split; reflexivity.
Qed.

Lemma lookup_code_trace self K max_attempts timeout res self' :
  lookup self K max_attempts timeout = (res, self') ->
  queried self' = queried self \/
  (exists node, queried self' = queried self ++ [node] /\ res = Raise TypeError).
Proof.
  rewrite lookup_code. intros H.
  destruct (PublicKeyM.init (KeyStr K)) as [tk | e]; [| injection H as _ <-; auto].
  destruct (cache self) as [entries |]; [| injection H as _ <-; auto].
  destruct (entries !! K) as [[cp ex] |].
  - destruct (Qltb _ _); [injection H as _ <-; auto |].
    apply lookup_miss_code_trace in H. exact H.
  - apply lookup_miss_code_trace in H. exact H.
Qed.

(** C10: within one [lookup] no node is popped from the frontier twice, and
    the number of attempts does not exceed [max_attempts].  This holds of
    the loop whatever the call of l.50 does, by the queried set and the test
    [attempts < max_attempts]; and in the code, where that call raises
    [TypeError], a lookup pops one node at most.  [pop] is any choice of an
    element of the frontier. *)
Theorem lookup_queries_each_node_once self public_key max_attempts timeout :
  (forall s : gset string, s ≠ ∅ -> set_pop s ∈ s) ->
  0 <= max_attempts ->
  (forall res self',
     lookup self public_key max_attempts timeout = (res, self') ->
     exists tr, queried self' = queried self ++ tr /\ NoDup tr /\
                Z.of_nat (length tr) <= max_attempts /\ (length tr <= 1)%nat) /\
  (forall call res self',
     (forall c n k, queried (snd (call c n k)) = queried c) ->
     lookup_calling call self public_key max_attempts timeout = (res, self') ->
     exists tr, queried self' = queried self ++ tr /\ NoDup tr /\
                Z.of_nat (length tr) <= max_attempts).
Proof.
  intros Hpop Hmax. split.
  - intros res self' H.
    destruct (lookup_calling_trace _request_packet_of_two self public_key max_attempts
                timeout res self') as (tr & Htr & Hnd & Hlen);
      [reflexivity | exact Hpop | exact Hmax | exact H |].
    exists tr. repeat split; try assumption.
    apply lookup_code_trace in H as [Hq | (node & Hq & _)].
    + assert (tr = []) as ->; [| simpl; lia].
      rewrite Hq in Htr. rewrite <- (app_nil_r (queried self)) in Htr at 1.
      apply app_inv_head in Htr. congruence.
    + rewrite Hq in Htr. apply app_inv_head in Htr. subst tr. simpl. lia.
  - intros call res self' Hq H.
    eapply lookup_calling_trace; [exact Hq | exact Hpop | exact Hmax | exact H].
Qed.

(** C2, as the code has it: on a client as [PkarrClient(...)] leaves it,
    every [lookup] raises ([AttributeError] at [self.cache] when the key text
    is well formed) and returns neither a packet nor [None].  No lookup
    fetches a packet: whatever the call of l.50 returns, a packet that a
    lookup hands back is the entry that the cache already held for the key,
    and no signature is checked on the way. *)
Theorem lookup_never_fetches (kp : Keypair) (nodes : list string) (K : string)
    (max_attempts timeout : Z) :
  (exists e, lookup (PkarrClient_init kp nodes) K max_attempts timeout
             = (Raise e, PkarrClient_init kp nodes)) /\
  (forall tk, PublicKeyM.init (KeyStr K) = Ok tk ->
     lookup (PkarrClient_init kp nodes) K max_attempts timeout
     = (Raise AttributeError, PkarrClient_init kp nodes)) /\
  (forall call self p self',
     lookup_calling call self K max_attempts timeout = (Ok (Some p), self') ->
     exists entries e,
       cache self = Some entries /\ entries !! K = Some (p, e) /\
       (clock (clock_reads self) < e)%Q /\ self' = tick (tick self)).
Proof.
  split; [| split].
  - rewrite lookup_code. destruct (PublicKeyM.init (KeyStr K)); eexists; reflexivity.
  - intros tk Hinit. rewrite lookup_code, Hinit. reflexivity.
  - intros call self p self' H. eapply lookup_calling_packet. exact H.
Qed.

(** C3, as the code has it: no lookup stores anything.  A client without a
    [cache] attribute, as [PkarrClient(...)] leaves it, raises
    [AttributeError]; with a cache attached, a lookup leaves the cache as it
    found it, whatever the call of l.50 does, and a packet from that call
    ends the lookup with [NameError] at [DEFAULT_MINIMUM_TTL], before the
    store.  The reading half holds: an entry for the key that is still
    fresh is returned without an attempt. *)
Theorem lookup_never_stores self K tk max_attempts timeout :
  PublicKeyM.init (KeyStr K) = Ok tk ->
  (cache self = None ->
     lookup self K max_attempts timeout = (Raise AttributeError, self)) /\
  (forall res self',
     lookup self K max_attempts timeout = (res, self') -> cache self' = cache self) /\
  (forall call res self',
     (forall c n k, cache (snd (call c n k)) = cache c) ->
     lookup_calling call self K max_attempts timeout = (res, self') ->
     cache self' = cache self) /\
  (forall call entries sp c,
     cache self = Some entries -> entries !! K = None ->
     bootstrap_nodes self <> [] -> 0 < max_attempts ->
     (clock (S (clock_reads self)) - clock (clock_reads self) < inject_Z timeout)%Q ->
     call (note_query (tick (tick self)) (set_pop (list_to_set (bootstrap_nodes self))))
          (set_pop (list_to_set (bootstrap_nodes self))) tk = (Ok (Some (inl sp)), c) ->
     lookup_calling call self K max_attempts timeout = (Raise NameError, tick (tick c))) /\
  (forall entries p e,
     cache self = Some entries -> entries !! K = Some (p, e) ->
     (clock (clock_reads self) < e)%Q ->
     lookup self K max_attempts timeout = (Ok (Some p), tick (tick self)) /\
     queried (tick (tick self)) = queried self /\
     requests (tick (tick self)) = requests self).
Proof.
  intros Hinit. split; [| split; [| split; [| split]]].
  - intros Hnone. rewrite lookup_code, Hinit, Hnone. reflexivity.
  - intros res self' H.
    eapply (lookup_calling_cache _request_packet_of_two); [reflexivity | exact H].
  - intros call res self' Hc H. eapply lookup_calling_cache; [exact Hc | exact H].
  - intros call entries sp c Hcache Hget Hboot Hmax Hclock Hcall.
    eapply (proj1 (lookup_calling_first call self K tk entries max_attempts timeout
                     Hinit Hcache Hget Hboot Hmax Hclock)).
    exact Hcall.
  - intros entries p e Hcache Hget Hfresh.
    rewrite lookup_code, Hinit, Hcache, Hget.
    apply Qltb_lt in Hfresh. rewrite Hfresh. repeat split.
Qed.

End LookupFacts.

Section RequestFacts.

Variable py_int : string -> option Z.
Variable clock : nat -> Q.
Variable transport : nat -> string -> Z -> exchange.
Variable set_pop : gset string -> string.

Local Abbreviation _request_packet := (_request_packet py_int transport).
Local Abbreviation lookup_calling := (lookup_calling clock set_pop).
Local Abbreviation lookup := (lookup clock set_pop).

(** [_request_packet] raises exactly when the address of the node does not
    parse, and then it raises [UnboundLocalError]. *)
Lemma request_packet_raises self node tk record_type :
  (forall host port, parse_address py_int node <> Address host port) ->
  _request_packet self node tk record_type = (Raise UnboundLocalError, note_request self node).
Proof.
  intros Hp. unfold Client._request_packet.
  destruct (parse_address py_int node) as [| h p | h p]; simpl; try reflexivity.
  exfalso. exact (Hp h p eq_refl).
Qed.

(** C5, as the code has it: errors do leave [lookup].  Without a [cache]
    attribute the lookup raises [AttributeError] before its loop; with a
    cache attached, the first attempt raises [TypeError] at the call of
    l.50, which gives two of the three arguments of [_request_packet], and
    [except PkarrError] does not catch it.  The handler catches
    [PkarrError] alone: any other exception of the call leaves the lookup,
    and [_request_packet] itself, called with its three arguments, raises
    [UnboundLocalError] for a node whose address does not parse. *)
Theorem lookup_aborts_at_first_attempt self K tk max_attempts timeout :
  PublicKeyM.init (KeyStr K) = Ok tk ->
  (cache self = None ->
     lookup self K max_attempts timeout = (Raise AttributeError, self)) /\
  (forall entries,
     cache self = Some entries -> entries !! K = None ->
     bootstrap_nodes self <> [] -> 0 < max_attempts ->
     (clock (S (clock_reads self)) - clock (clock_reads self) < inject_Z timeout)%Q ->
     lookup self K max_attempts timeout =
       (Raise TypeError,
        note_query (tick (tick self)) (set_pop (list_to_set (bootstrap_nodes self))))) /\
  (forall call entries e c,
     cache self = Some entries -> entries !! K = None ->
     bootstrap_nodes self <> [] -> 0 < max_attempts ->
     (clock (S (clock_reads self)) - clock (clock_reads self) < inject_Z timeout)%Q ->
     call (note_query (tick (tick self)) (set_pop (list_to_set (bootstrap_nodes self))))
          (set_pop (list_to_set (bootstrap_nodes self))) tk = (Raise e, c) ->
     is_PkarrError e = false ->
     lookup_calling call self K max_attempts timeout = (Raise e, c)) /\
  (forall c node record_type,
     (forall host port, parse_address py_int node <> Address host port) ->
     _request_packet c node tk record_type
       = (Raise UnboundLocalError, note_request c node)).
Proof.
  intros Hinit. split; [| split; [| split]].
  - intros Hnone. rewrite lookup_code, Hinit, Hnone. reflexivity.
  - intros entries Hcache Hget Hboot Hmax Hclock.
    eapply (proj2 (lookup_calling_first clock set_pop _request_packet_of_two self K tk
                     entries max_attempts timeout Hinit Hcache Hget Hboot Hmax Hclock));
      reflexivity.
  - intros call entries e c Hcache Hget Hboot Hmax Hclock Hcall He.
    eapply (proj2 (lookup_calling_first clock set_pop call self K tk entries max_attempts
                     timeout Hinit Hcache Hget Hboot Hmax Hclock)); [exact Hcall | exact He].
  - intros c node record_type Hp. apply request_packet_raises. exact Hp.
Qed.

End RequestFacts.

(** *** Closed runs *)

Lemma demo_pop_elem (s : gset string) : s ≠ ∅ -> demo_pop s ∈ s.
Proof.
  intros Hne. unfold demo_pop. destruct (elements s) as [| x l] eqn:E.
  - apply elements_empty_inv in E. exfalso. apply Hne. apply leibniz_equiv, E.
  - apply elem_of_elements. rewrite E. left.
Qed.

Lemma demo_clock_step (k : nat) (timeout : Z) :
  1 < timeout -> (demo_clock (S k) - demo_clock k < inject_Z timeout)%Q.
Proof.
  intros H. unfold demo_clock, Qlt, Qminus, Qplus, Qopp, inject_Z. simpl. lia.
Qed.

Lemma parse_address_no_port (py_int : string -> option Z) (host : string) (port : Z) :
  parse_address py_int "localhost" <> Address host port.
Proof. discriminate. Qed.

Lemma demo_key_text_init : PublicKeyM.init (KeyStr demo_key_text) = Ok (mkPublicKey demo_secret).
Proof.
  unfold PublicKeyM.init, demo_key_text.
  rewrite CryptoFacts.z_base_32_roundtrip. reflexivity.
Qed.

Lemma lookup_queries_each_node_once_witness :
  (forall res self',
     demo_lookup demo_client_cached demo_key_text 100 30 = (res, self') ->
     exists tr, queried self' = queried demo_client_cached ++ tr /\ NoDup tr /\
                Z.of_nat (length tr) <= 100 /\ (length tr <= 1)%nat) /\
  (forall call res self',
     (forall c n k, queried (snd (call c n k)) = queried c) ->
     lookup_calling demo_clock demo_pop call demo_client_cached demo_key_text 100 30
       = (res, self') ->
     exists tr, queried self' = queried demo_client_cached ++ tr /\ NoDup tr /\
                Z.of_nat (length tr) <= 100).
Proof.
  apply (lookup_queries_each_node_once demo_clock demo_pop demo_client_cached
           demo_key_text 100 30).
  - exact demo_pop_elem.
  - lia.
Defined.

(** A client as its constructor leaves it, and a client to which a caller
    has attached a cache with a fresh entry for the key. *)
Lemma lookup_never_stores_witness :
  demo_lookup demo_client demo_key_text 100 30 = (Raise AttributeError, demo_client) /\
  (demo_lookup demo_client_fresh demo_key_text 100 30
     = (Ok (Some demo_signed_packet), tick (tick demo_client_fresh)) /\
   queried (tick (tick demo_client_fresh)) = queried demo_client_fresh /\
   requests (tick (tick demo_client_fresh)) = requests demo_client_fresh).
Proof.
  split.
  - apply (proj1 (lookup_never_stores demo_clock demo_pop demo_client demo_key_text
                    (mkPublicKey demo_secret) 100 30 demo_key_text_init)).
    reflexivity.
  - apply (proj2 (proj2 (proj2 (proj2
             (lookup_never_stores demo_clock demo_pop demo_client_fresh demo_key_text
                (mkPublicKey demo_secret) 100 30 demo_key_text_init))))
             {[demo_key_text := (demo_signed_packet, 100%Q)]} demo_signed_packet 100%Q).
    + reflexivity.
    + apply lookup_singleton_eq.
    + vm_compute. reflexivity.
Defined.

(** A client as its constructor leaves it, and the same client after a
    caller has attached an empty cache. *)
Lemma lookup_aborts_at_first_attempt_witness :
  demo_lookup demo_client demo_key_text 100 30 = (Raise AttributeError, demo_client) /\
  demo_lookup demo_client_cached demo_key_text 100 30 =
    (Raise TypeError,
     note_query (tick (tick demo_client_cached))
       (demo_pop (list_to_set (bootstrap_nodes demo_client_cached)))).
Proof.
  split.
  - apply (proj1 (lookup_aborts_at_first_attempt demo_int demo_clock demo_transport
                    demo_pop demo_client demo_key_text (mkPublicKey demo_secret) 100 30
                    demo_key_text_init)).
    reflexivity.
  - apply (proj1 (proj2
             (lookup_aborts_at_first_attempt demo_int demo_clock demo_transport demo_pop
                demo_client_cached demo_key_text (mkPublicKey demo_secret) 100 30
                demo_key_text_init)) ∅).
    + reflexivity.
    + apply lookup_empty.
    + discriminate.
    + lia.
    + apply demo_clock_step. lia.
Defined.

(** The runs evaluated.  A client as its constructor leaves it: the lookup
    raises at [self.cache], with no node popped and no clock read. *)
Example demo_lookup_run :
  demo_lookup demo_client demo_key_text 100 30 = (Raise AttributeError, demo_client).
Proof. vm_compute. reflexivity. Qed.

(** The same client with an empty cache attached: one node is popped, the
    call raises, and no request is made. *)
Example demo_lookup_cached :
  let '(res, c) := demo_lookup demo_client_cached demo_key_text 100 30 in
  res = Raise TypeError /\ queried c = ["10.0.0.1:6881"] /\ requests c = [] /\
  cache c = Some ∅.
Proof. vm_compute. repeat split. Qed.

(** [_request_packet] called with its three arguments for a node without a
    port. *)
Example demo_request_no_port :
  fst (demo_request demo_client "localhost") = Raise UnboundLocalError.
Proof. vm_compute. reflexivity. Qed.

End ClientFacts.

(** ** More on the z-base-32 codec and on key texts *)

Module CodecMore.
Import Crypto.

Lemma length_append (s1 s2 : string) :
  String.length (s1 +:+ s2) = (String.length s1 + String.length s2)%nat.
Proof. induction s1 as [| c s1 IH]; simpl; [reflexivity | rewrite IH; reflexivity]. Qed.

Lemma chars_app (s1 s2 : string) : chars (s1 +:+ s2) = chars s1 ++ chars s2.
Proof.
  unfold chars. induction s1 as [| c s1 IH]; simpl; [reflexivity | rewrite IH; reflexivity].
Qed.

Lemma length_chars (s : string) : length (chars s) = String.length s.
Proof. unfold chars. induction s as [| c s IH]; simpl; [reflexivity | rewrite IH; reflexivity]. Qed.

Lemma land_31_range (x : Z) : 0 <= Z.land x 31 < 32.
Proof.
  change 31 with (Z.ones 5). rewrite Z.land_ones by lia.
  change (2 ^ 5) with 32. apply Z.mod_pos_bound. lia.
Qed.

Lemma symbol_in_alphabet (x : Z) : is_Some (alphabet_map (alphabet_at (Z.land x 31))).
Proof.
  rewrite CryptoFacts.alphabet_map_at by apply land_31_range. eexists. reflexivity.
Qed.

(** The encoder keeps [5 * symbols + pending bits = 8 * bytes] and emits
    symbols of the alphabet only. *)
Lemma encode_loop_shape (data : bytes) (v0 b0 : Z) (r0 : string) :
  0 <= b0 < 5 ->
  Forall (fun c => is_Some (alphabet_map c)) (chars r0) ->
  exists v be res,
    encode_loop data v0 b0 r0 = (v, be, res) /\ 0 <= be < 5 /\
    5 * Z.of_nat (String.length res) + be =
      5 * Z.of_nat (String.length r0) + b0 + 8 * Z.of_nat (length data) /\
    Forall (fun c => is_Some (alphabet_map c)) (chars res).
Proof.
  revert v0 b0 r0. induction data as [| x data IH]; intros v0 b0 r0 Hb Hr.
  - exists v0, b0, r0. simpl. repeat split; try lia; assumption.
  - cbn [encode_loop]. cbv zeta.
    set (w := Z.lor (Z.shiftl v0 8) (byte_to_Z x)).
    destruct (Z_lt_ge_dec b0 2) as [Hlo | Hhi].
    + rewrite CryptoFacts.encode_drain_one by lia.
      destruct (IH w (b0 + 3)
                  (r0 +:+ String (alphabet_at (Z.land (Z.shiftr w (b0 + 3)) 31)) ""))
        as (v & be & res & He & Hbe & Hlen & Hres).
      * lia.
      * rewrite chars_app. apply Forall_app. split; [exact Hr |].
        constructor; [apply symbol_in_alphabet | constructor].
      * exists v, be, res. rewrite He. repeat split; try lia; try assumption.
        rewrite Hlen, length_append. simpl String.length. simpl length. lia.
    + rewrite CryptoFacts.encode_drain_two by lia.
      destruct (IH w (b0 - 2)
                  ((r0 +:+ String (alphabet_at (Z.land (Z.shiftr w (b0 + 3)) 31)) "")
                     +:+ String (alphabet_at (Z.land (Z.shiftr w (b0 - 2)) 31)) ""))
        as (v & be & res & He & Hbe & Hlen & Hres).
      * lia.
      * rewrite !chars_app. repeat (apply Forall_app; split); try exact Hr;
          (constructor; [apply symbol_in_alphabet | constructor]).
      * exists v, be, res. rewrite He. repeat split; try lia; try assumption.
        rewrite Hlen, !length_append. simpl String.length. simpl length. lia.
Qed.

Lemma encode_length_chars (data : bytes) :
  Z.of_nat (String.length (z_base_32_encode data)) = (8 * Z.of_nat (length data) + 4) / 5 /\
  Forall (fun c => is_Some (alphabet_map c)) (chars (z_base_32_encode data)).
Proof.
  unfold z_base_32_encode.
  destruct (encode_loop_shape data 0 0 "" ltac:(lia) ltac:(constructor))
    as (v & be & res & He & Hbe & Hlen & Hres).
  rewrite He. simpl String.length in Hlen.
  destruct (Z.ltb_spec 0 be).
  - rewrite length_append, chars_app. simpl String.length. split.
    + Z.div_mod_to_equations. lia.
    + apply Forall_app. split; [exact Hres |].
      constructor; [apply symbol_in_alphabet | constructor].
  - split; [Z.div_mod_to_equations; lia | exact Hres].
Qed.

Lemma encode_length_32 (data : bytes) :
  length data = 32%nat -> String.length (z_base_32_encode data) = 52%nat.
Proof.
  intros H32. destruct (encode_length_chars data) as [Hlen _].
  rewrite H32 in Hlen. change ((8 * Z.of_nat 32 + 4) / 5) with 52 in Hlen. lia.
Qed.

(** X1: the encoding of [n] bytes has [ceil(8 n / 5)] symbols, all of them
    from the alphabet; 32 bytes give 52 symbols. *)
Theorem z_base_32_encode_shape (data : bytes) :
  Z.of_nat (String.length (z_base_32_encode data)) = (8 * Z.of_nat (length data) + 4) / 5 /\
  Forall (fun c => is_Some (alphabet_map c)) (chars (z_base_32_encode data)) /\
  (length data = 32%nat -> String.length (z_base_32_encode data) = 52%nat).
Proof.
  destruct (encode_length_chars data) as [Hlen Hall].
  repeat split; try assumption. apply encode_length_32.
Qed.

(** The decoder keeps [8 * bytes + pending bits = 5 * symbols] on a text of
    the alphabet. *)
Lemma decode_loop_shape (s : string) (v b : Z) (r : bytes) :
  0 <= b < 8 ->
  Forall (fun c => is_Some (alphabet_map c)) (chars s) ->
  exists v' b' r',
    decode_loop s v b r = Ok (v', b', r') /\ 0 <= b' < 8 /\
    8 * Z.of_nat (length r') + b' = 8 * Z.of_nat (length r) + b + 5 * Z.of_nat (String.length s).
Proof.
  revert v b r. induction s as [| c s IH]; intros v b r Hb Hs.
  - exists v, b, r. simpl. repeat split; lia.
  - unfold chars in Hs. simpl in Hs. apply Forall_cons in Hs as [[i Hi] Hs].
    cbn [decode_loop]. rewrite Hi. cbv zeta.
    destruct (Z.leb_spec 8 (b + 5)).
    + destruct (IH (Z.lor (Z.shiftl v 5) i) (b + 5 - 8)
                  (r ++ [byte_of_Z (Z.land (Z.shiftr (Z.lor (Z.shiftl v 5) i) (b + 5 - 8)) 255)])
                  ltac:(lia) Hs) as (v' & b' & r' & Hd & Hb' & Hlen).
      exists v', b', r'. rewrite Hd. repeat split; try lia.
      rewrite Hlen, length_app. simpl length. simpl String.length. lia.
    + destruct (IH (Z.lor (Z.shiftl v 5) i) (b + 5) r ltac:(lia) Hs)
        as (v' & b' & r' & Hd & Hb' & Hlen).
      exists v', b', r'. rewrite Hd. repeat split; try lia.
      rewrite Hlen. simpl String.length. lia.
Qed.

Lemma decode_loop_bad (s : string) (v b : Z) (r : bytes) :
  ~ Forall (fun c => is_Some (alphabet_map c)) (chars s) ->
  decode_loop s v b r = Raise KeyError.
Proof.
  revert v b r. induction s as [| c s IH]; intros v b r Hs.
  - exfalso. apply Hs. constructor.
  - cbn [decode_loop]. destruct (alphabet_map c) as [i |] eqn:Hi; [| reflexivity].
    assert (Hs' : ~ Forall (fun c => is_Some (alphabet_map c)) (chars s)).
    { intros H. apply Hs. unfold chars. simpl. constructor; [rewrite Hi; eexists; reflexivity | exact H]. }
    cbv zeta. destruct (8 <=? b + 5); apply IH; exact Hs'.
Qed.

Lemma decode_good (s : string) :
  Forall (fun c => is_Some (alphabet_map c)) (chars s) ->
  exists b, z_base_32_decode s = Ok b /\
            Z.of_nat (length b) = 5 * Z.of_nat (String.length s) / 8.
Proof.
  intros Hs. unfold z_base_32_decode.
  destruct (decode_loop_shape s 0 0 [] ltac:(lia) Hs) as (v' & b' & r' & Hd & Hb' & Hlen).
  rewrite Hd. simpl. exists r'. split; [reflexivity |].
  simpl length in Hlen. Z.div_mod_to_equations. lia.
Qed.

Lemma decode_bad (s : string) :
  ~ Forall (fun c => is_Some (alphabet_map c)) (chars s) ->
  z_base_32_decode s = Raise KeyError.
Proof.
  intros Hs. unfold z_base_32_decode. rewrite decode_loop_bad by exact Hs. reflexivity.
Qed.

(** X2: decoding raises [KeyError] exactly when the text has a character
    outside the alphabet, and never anything else; a text of [m] symbols of
    the alphabet decodes to [floor(5 m / 8)] bytes. *)
Theorem z_base_32_decode_outcome (s : string) :
  (Forall (fun c => is_Some (alphabet_map c)) (chars s) ->
   exists b, z_base_32_decode s = Ok b /\
             Z.of_nat (length b) = 5 * Z.of_nat (String.length s) / 8) /\
  (~ Forall (fun c => is_Some (alphabet_map c)) (chars s) ->
   z_base_32_decode s = Raise KeyError) /\
  (forall e, z_base_32_decode s = Raise e -> e = KeyError).
Proof.
  repeat split; [apply decode_good | apply decode_bad |].
  intros e He.
  destruct (decide (Forall (fun c => is_Some (alphabet_map c)) (chars s))) as [Hs | Hs].
  - destruct (decode_good s Hs) as (b & Hb & _). congruence.
  - rewrite (decode_bad s Hs) in He. congruence.
Qed.

(** X3: the textual path of [PublicKey(...)] never raises [PublicKeyError]:
    a text with a character outside the alphabet raises [KeyError], and any
    other text of [m] symbols is accepted with a raw key of [floor(5 m / 8)]
    bytes, which is 32 bytes exactly for [m = 52]. *)
Theorem PublicKey_of_text (s : string) :
  (Forall (fun c => is_Some (alphabet_map c)) (chars s) ->
   exists pk, PublicKeyM.init (KeyStr s) = Ok pk /\
     Z.of_nat (length (key pk)) = 5 * Z.of_nat (String.length s) / 8 /\
     (length (key pk) = 32%nat <-> String.length s = 52%nat)) /\
  (~ Forall (fun c => is_Some (alphabet_map c)) (chars s) ->
   PublicKeyM.init (KeyStr s) = Raise KeyError) /\
  (forall msg, PublicKeyM.init (KeyStr s) <> Raise (PublicKeyError msg)).
Proof.
  assert (Hgood : Forall (fun c => is_Some (alphabet_map c)) (chars s) ->
            exists pk, PublicKeyM.init (KeyStr s) = Ok pk /\
              Z.of_nat (length (key pk)) = 5 * Z.of_nat (String.length s) / 8 /\
              (length (key pk) = 32%nat <-> String.length s = 52%nat)).
  { intros Hs. destruct (decode_good s Hs) as (b & Hb & Hlen).
    exists (mkPublicKey b). unfold PublicKeyM.init. rewrite Hb. simpl.
    repeat split; try assumption; intros H; Z.div_mod_to_equations; lia. }
  assert (Hbad : ~ Forall (fun c => is_Some (alphabet_map c)) (chars s) ->
            PublicKeyM.init (KeyStr s) = Raise KeyError).
  { intros Hs. unfold PublicKeyM.init. rewrite (decode_bad s Hs). reflexivity. }
  repeat split; try assumption.
  intros msg He.
  destruct (decide (Forall (fun c => is_Some (alphabet_map c)) (chars s))) as [Hs | Hs].
  - destruct (Hgood Hs) as (pk & Hpk & _). congruence.
  - rewrite (Hbad Hs) in He. discriminate.
Qed.

(** X4: the key text identifies the key: two keys have the same text exactly
    when they are equal, the constructor reads the text of a key back as that
    key, and the text of a 32-byte key has 52 symbols. *)
Theorem key_text_canonical (pk pk' : PublicKey) :
  (PublicKeyM.to_z32 pk = PublicKeyM.to_z32 pk' <-> pk = pk') /\
  PublicKeyM.init (KeyStr (PublicKeyM.to_z32 pk)) = Ok pk /\
  (length (key pk) = 32%nat -> String.length (PublicKeyM.to_z32 pk) = 52%nat).
Proof.
  repeat split.
  - intros H. destruct pk as [k], pk' as [k']. unfold PublicKeyM.to_z32 in H. simpl in H.
    apply CryptoFacts.z_base_32_encode_inj in H. congruence.
  - intros ->. reflexivity.
  - unfold PublicKeyM.init, PublicKeyM.to_z32.
    rewrite CryptoFacts.z_base_32_roundtrip. destruct pk. reflexivity.
  - apply encode_length_32.
Qed.

End CodecMore.

(** ** More on signed packets and key pairs *)

Module SignedPacketMore.
Import SignedPacketM.

Lemma string_of_uint_chars (d : Decimal.uint) :
  Forall (fun c => is_numeral_char c = true) (chars (NilEmpty.string_of_uint d)).
Proof.
  unfold chars. induction d; simpl; constructor; solve [reflexivity | assumption].
Qed.

Lemma str_int_chars (n : Z) : Forall (fun c => is_numeral_char c = true) (chars (str_int n)).
Proof.
  unfold str_int, NilZero.string_of_int, NilZero.string_of_uint.
  destruct (Z.to_int n) as [d | d].
  - destruct d; try apply string_of_uint_chars. repeat constructor.
  - unfold chars. simpl. constructor; [reflexivity |].
    destruct d; try apply string_of_uint_chars. repeat constructor.
Qed.

Lemma numeral_char_cases (c : ascii) :
  is_numeral_char c = true ->
  c <> "e"%char /\ c <> ":"%char /\ c <> "."%char /\ c <> "@"%char.
Proof.
  unfold is_numeral_char. simpl. intros H.
  repeat (apply orb_prop in H as [H | H];
          [apply Ascii.eqb_eq in H; subst c; repeat split; discriminate |]).
  discriminate.
Qed.

Lemma encode_chars (s : string) : encode s = map byte_of_ascii (chars s).
Proof. reflexivity. Qed.

Lemma numeral_bytes (n : Z) (b : byte) :
  In b (encode (str_int n)) -> b <> x65 /\ b <> x3a.
Proof.
  rewrite encode_chars, in_map_iff. intros (c & <- & Hc).
  pose proof (str_int_chars n) as Hall. rewrite List.Forall_forall in Hall.
  apply Hall, numeral_char_cases in Hc as (He & Hcolon & _).
  split; intros Hb; [apply He | apply Hcolon];
    apply (f_equal ascii_of_byte) in Hb; rewrite ascii_of_byte_of_ascii in Hb; exact Hb.
Qed.

Lemma str_int_inj (n m : Z) : str_int n = str_int m -> n = m.
Proof.
  intros H. pose proof (SignedPacketFacts.str_int_parse n) as Hn.
  rewrite H, SignedPacketFacts.str_int_parse in Hn. congruence.
Qed.

Lemma encode_inj (s s' : string) : encode s = encode s' -> s = s'.
Proof.
  unfold encode. intros H.
  rewrite <- (string_of_list_byte_of_string s), <- (string_of_list_byte_of_string s'), H.
  reflexivity.
Qed.

(** Two lists that agree up to and after the first occurrence of a marker. *)
Lemma split_at_marker {A} (x : A) (a a' r r' : list A) :
  ~ In x a -> ~ In x a' -> a ++ x :: r = a' ++ x :: r' -> a = a' /\ r = r'.
Proof.
  revert a'. induction a as [| y a IH]; intros a' Ha Ha' H.
  - destruct a' as [| y' a']; simpl in H.
    + injection H as ->. auto.
    + injection H as -> _. exfalso. apply Ha'. left. reflexivity.
  - destruct a' as [| y' a']; simpl in H.
    + injection H as -> _. exfalso. apply Ha. left. reflexivity.
    + injection H as -> H. destruct (IH a') as [-> ->]; auto.
      * intros Hin. apply Ha. right. exact Hin.
      * intros Hin. apply Ha'. right. exact Hin.
Qed.

(** X5: the signable bytes determine the timestamp and the payload: no two
    different pairs are framed as the same byte string. *)
Theorem signable_injective (t t' : Z) (v v' : bytes) :
  signable t v = signable t' v' <-> t = t' /\ v = v'.
Proof.
  split; [| intros [-> ->]; reflexivity].
  rewrite !SignedPacketFacts.signable_bytes. intros H.
  apply app_inv_head in H.
  change ([x65; x31; x3a; x76] ++ ?l) with (x65 :: [x31; x3a; x76] ++ l) in H.
  apply split_at_marker in H as [Ht H];
    [| intros Hin; apply numeral_bytes in Hin as [He _]; congruence ..].
  apply app_inv_head in H.
  change ([x3a] ++ ?l) with (x3a :: l) in H.
  apply split_at_marker in H as [_ Hv];
    [| intros Hin; apply numeral_bytes in Hin as [_ Hc]; congruence ..].
  split; [| exact Hv]. apply str_int_inj, encode_inj, Ht.
Qed.

Lemma int_from_bytes_range (b : bytes) :
  0 <= int_from_bytes b < 256 ^ Z.of_nat (length b).
Proof.
  induction b as [| x b IH] using rev_ind.
  - unfold int_from_bytes. simpl. lia.
  - rewrite SignedPacketFacts.int_from_bytes_snoc, length_app. simpl length.
    replace (Z.of_nat (length b + 1)) with (Z.succ (Z.of_nat (length b))) by lia.
    rewrite Z.pow_succ_r by lia. pose proof (byte_to_Z_range x). lia.
Qed.

Lemma be_digits_int_from_bytes (b : bytes) : be_digits (length b) (int_from_bytes b) = b.
Proof.
  induction b as [| x b IH] using rev_ind; [reflexivity |].
  rewrite SignedPacketFacts.int_from_bytes_snoc, length_app. simpl length.
  replace (length b + 1)%nat with (S (length b)) by lia. simpl be_digits.
  pose proof (byte_to_Z_range x) as Hx.
  replace ((int_from_bytes b * 256 + byte_to_Z x) / 256) with (int_from_bytes b)
    by (Z.div_mod_to_equations; lia).
  replace ((int_from_bytes b * 256 + byte_to_Z x) mod 256) with (byte_to_Z x)
    by (Z.div_mod_to_equations; lia).
  rewrite IH, byte_of_to_Z. reflexivity.
Qed.


Lemma be_digits_of_length (k : nat) (b : bytes) :
  length b = k -> be_digits k (int_from_bytes b) = b.
Proof. intros <-. apply be_digits_int_from_bytes. Qed.

(** X10: with [0 <= min_ttl <= max_ttl] and a clock not behind
    [last_seen], [expires_in] lies in [[0, max_ttl]], never grows as time
    passes, and is 0 exactly when the elapsed whole seconds have reached the
    TTL. *)
Theorem expires_in_bounds (self : SignedPacket) (now_us later_us min_ttl max_ttl : Z) :
  0 <= min_ttl <= max_ttl ->
  last_seen self <= now_us <= later_us ->
  0 <= expires_in now_us self min_ttl max_ttl <= max_ttl /\
  expires_in later_us self min_ttl max_ttl <= expires_in now_us self min_ttl max_ttl /\
  (expires_in now_us self min_ttl max_ttl = 0 <->
   ttl self min_ttl max_ttl <= elapsed now_us self).
Proof.
  intros Hb Ht. unfold expires_in, elapsed.
  assert (Httl : min_ttl <= ttl self min_ttl max_ttl <= max_ttl).
  { unfold ttl. destruct (answers (packet self)); lia. }
  assert (H0 : 0 <= (now_us - last_seen self) / 1000000)
    by (apply Z.div_pos; lia).
  assert (Hmono : (now_us - last_seen self) / 1000000 <= (later_us - last_seen self) / 1000000)
    by (apply Z.div_le_mono; lia).
  repeat split; lia.
Qed.

Lemma expires_in_bounds_witness :
  0 <= expires_in 7000000 (mkSignedPacket (mkPublicKey []) [] 0 demo_packet 2000000)
         300 86400 <= 86400 /\
  expires_in 9000000 (mkSignedPacket (mkPublicKey []) [] 0 demo_packet 2000000) 300 86400
    <= expires_in 7000000 (mkSignedPacket (mkPublicKey []) [] 0 demo_packet 2000000)
         300 86400 /\
  (expires_in 7000000 (mkSignedPacket (mkPublicKey []) [] 0 demo_packet 2000000)
     300 86400 = 0 <->
   ttl (mkSignedPacket (mkPublicKey []) [] 0 demo_packet 2000000) 300 86400
     <= elapsed 7000000 (mkSignedPacket (mkPublicKey []) [] 0 demo_packet 2000000)).
Proof.
  apply (expires_in_bounds (mkSignedPacket (mkPublicKey []) [] 0 demo_packet 2000000)
           7000000 9000000 300 86400); simpl; lia.
Defined.

Section ProtocolMore.

Variable ed25519_derive : bytes -> bytes.
Variable ed25519_sign : bytes -> bytes -> bytes.
Variable ed25519_verify : bytes -> bytes -> bytes -> bool.
Variable build_bytes_vec_compressed : Packet -> outcome bytes.

Local Abbreviation Keypair_init := (Keypair_init ed25519_derive).
Local Abbreviation Keypair_sign := (Keypair_sign ed25519_sign).
Local Abbreviation as_bytes := (as_bytes build_bytes_vec_compressed).
Local Abbreviation to_relay_payload := (to_relay_payload build_bytes_vec_compressed).

(** X8: for a packet with a 32-byte signer key, the relay payload is the wire
    form without the key: signature, timestamp and encoded packet; prefixing
    the key gives the wire form back.  Both raise [OverflowError] when the
    timestamp does not fit 8 bytes. *)
Theorem relay_payload_strips_key (self : SignedPacket) :
  length (key (sp_public_key self)) = 32%nat ->
  (forall data, as_bytes self = Ok data ->
     exists ts enc,
       int_to_bytes 8 (timestamp self) = Ok ts /\
       build_bytes_vec_compressed (packet self) = Ok enc /\
       to_relay_payload self = Ok (signature self ++ ts ++ enc) /\
       data = key (sp_public_key self) ++ signature self ++ ts ++ enc) /\
  (~ 0 <= timestamp self < 2 ^ 64 ->
     as_bytes self = Raise OverflowError /\ to_relay_payload self = Raise OverflowError).
Proof.
  intros Hk. split.
  - intros data H. unfold SignedPacketM.to_relay_payload.
    unfold SignedPacketM.as_bytes in *.
    destruct (int_to_bytes 8 (timestamp self)) as [ts | e]; simpl in *; [| discriminate].
    destruct (build_bytes_vec_compressed (packet self)) as [enc | e]; simpl in *;
      [| discriminate].
    injection H as <-. exists ts, enc. repeat split.
    rewrite (SignedPacketFacts.drop_app_exact 32) by exact Hk. reflexivity.
  - intros Ht. unfold SignedPacketM.to_relay_payload, SignedPacketM.as_bytes, int_to_bytes.
    change (256 ^ Z.of_nat 8) with (2 ^ 64).
    destruct (Z.leb_spec 0 (timestamp self)); destruct (Z.ltb_spec (timestamp self) (2 ^ 64));
      simpl; try lia; split; reflexivity.
Qed.

(** X9: a key pair is made exactly from a 32-byte secret; it carries the
    derived public key, gives its secret back as [to_bytes], is rebuilt from
    those bytes, and verifies what it signs when the provider is correct. *)
Theorem Keypair_roundtrip (sk : bytes) (kp : Keypair) :
  (forall k m, ed25519_verify (ed25519_derive k) m (ed25519_sign k m) = true) ->
  Keypair_init sk = Ok kp ->
  length sk = 32%nat /\
  key (public_key kp) = ed25519_derive sk /\
  KeypairM.to_bytes kp = sk /\
  Keypair_init (KeypairM.to_bytes kp) = Ok kp /\
  (forall m, exists sig,
     Keypair_sign kp m = Ok sig /\ KeypairM.verify ed25519_verify kp m sig = true).
Proof.
  intros Hver Hkp. pose proof Hkp as Hkp'.
  apply SignedPacketFacts.Keypair_init_ok in Hkp' as (Hsk & Hpk & ->).
  repeat split; try assumption.
  intros m. exists (ed25519_sign sk m).
  unfold SignedPacketM.Keypair_sign, Crypto_sign, KeypairM.verify, PublicKey_verify,
    Crypto_verify. simpl. rewrite Hsk. simpl. split; [reflexivity | apply Hver].
Qed.

(** A secret of any other length is refused. *)
Lemma Keypair_init_wrong_length (sk : bytes) :
  length sk <> 32%nat -> Keypair_init sk = Raise KeypairError.
Proof.
  intros H. unfold SignedPacketM.Keypair_init.
  destruct (Nat.eqb_spec (length sk) 32); [contradiction | reflexivity].
Qed.

End ProtocolMore.

Lemma relay_payload_strips_key_witness :
  (forall data, as_bytes demo_codec demo_signed_packet = Ok data ->
     exists ts enc,
       int_to_bytes 8 (timestamp demo_signed_packet) = Ok ts /\
       demo_codec (packet demo_signed_packet) = Ok enc /\
       to_relay_payload demo_codec demo_signed_packet
         = Ok (signature demo_signed_packet ++ ts ++ enc) /\
       data = key (sp_public_key demo_signed_packet) ++ signature demo_signed_packet
                ++ ts ++ enc) /\
  (~ 0 <= timestamp demo_signed_packet < 2 ^ 64 ->
     as_bytes demo_codec demo_signed_packet = Raise OverflowError /\
     to_relay_payload demo_codec demo_signed_packet = Raise OverflowError).
Proof.
  apply (relay_payload_strips_key demo_codec demo_signed_packet). reflexivity.
Defined.

Lemma Keypair_roundtrip_witness :
  length demo_secret = 32%nat /\
  key (public_key demo_keypair) = demo_derive demo_secret /\
  KeypairM.to_bytes demo_keypair = demo_secret /\
  Keypair_init demo_derive (KeypairM.to_bytes demo_keypair) = Ok demo_keypair /\
  (forall m, exists sig,
     Keypair_sign demo_sign demo_keypair m = Ok sig /\
     KeypairM.verify demo_verify demo_keypair m sig = true).
Proof.
  apply (Keypair_roundtrip demo_derive demo_sign demo_verify demo_secret demo_keypair).
  - exact SignedPacketFacts.demo_verify_sign.
  - reflexivity.
Defined.


End SignedPacketMore.

(** ** Names and records of a signed packet *)

Module NamesMore.
Import SignedPacketRecords.

Lemma split_from_nonempty (c : ascii) (s cur : string) : Client.split_from c s cur <> [].
Proof.
  revert cur. induction s as [| d s IH]; intros cur; simpl; [discriminate |].
  destruct (Ascii.eqb c d); [discriminate | apply IH].
Qed.

Lemma last_cons_nonempty {A} (x d : A) (l : list A) : l <> [] -> List.last (x :: l) d = List.last l d.
Proof. destruct l; [contradiction | reflexivity]. Qed.

Lemma append_cons (x : ascii) (a b : string) : String x a +:+ b = String x (a +:+ b).
Proof. reflexivity. Qed.

Lemma append_assoc (a b c : string) : (a +:+ b) +:+ c = a +:+ (b +:+ c).
Proof.
  induction a as [| x a IH]; [reflexivity |]. rewrite !append_cons, IH. reflexivity.
Qed.

Lemma append_empty_r (a : string) : a +:+ "" = a.
Proof.
  induction a as [| x a IH]; [reflexivity |]. rewrite append_cons, IH. reflexivity.
Qed.

(** A text without the separator is one part. *)
Lemma split_from_no_sep (c : ascii) (o cur : string) :
  Forall (fun d => d <> c) (chars o) -> Client.split_from c o cur = [cur +:+ o].
Proof.
  revert cur. induction o as [| d o IH]; intros cur Ho; simpl.
  - rewrite append_empty_r. reflexivity.
  - unfold chars in Ho. simpl in Ho. apply Forall_cons in Ho as [Hd Ho].
    destruct (Ascii.eqb_spec c d) as [-> | _]; [contradiction |].
    rewrite IH by exact Ho. rewrite append_assoc. reflexivity.
Qed.

(** The last part of a text is the last part of what follows a separator. *)
Lemma last_split_from_app (c : ascii) (a o cur : string) :
  List.last (Client.split_from c (a +:+ String c o) cur) "" =
  List.last (Client.split_from c o "") "".
Proof.
  revert cur. induction a as [| d a IH]; intros cur; simpl.
  - rewrite Ascii.eqb_refl. apply last_cons_nonempty, split_from_nonempty.
  - destruct (Ascii.eqb c d).
    + rewrite last_cons_nonempty by apply split_from_nonempty. apply IH.
    + apply IH.
Qed.

Lemma ends_with_last_empty (c : ascii) (s cur : string) :
  ends_with c s = true -> List.last (Client.split_from c s cur) "" = "".
Proof.
  revert cur. induction s as [| d s IH]; intros cur H; [discriminate |].
  destruct s as [| e s].
  - simpl in H. apply Ascii.eqb_eq in H as ->. simpl. rewrite Ascii.eqb_refl. reflexivity.
  - change (ends_with c (String e s) = true) in H.
    change (List.last (if Ascii.eqb c d
                       then cur :: Client.split_from c (String e s) ""
                       else Client.split_from c (String e s) (cur +:+ String d "")) "" = "").
    destruct (Ascii.eqb c d).
    + rewrite last_cons_nonempty by apply split_from_nonempty. apply IH, H.
    + apply IH, H.
Qed.

Lemma ends_with_app (c : ascii) (a o : string) :
  o <> "" -> ends_with c (a +:+ o) = ends_with c o.
Proof.
  intros Ho. induction a as [| d a IH]; [reflexivity |].
  rewrite append_cons. destruct (a +:+ o) eqn:E.
  - destruct a; [contradiction | discriminate].
  - rewrite <- IH. reflexivity.
Qed.

Lemma ends_with_no_sep (c : ascii) (o : string) :
  Forall (fun d => d <> c) (chars o) -> ends_with c o = false.
Proof.
  induction o as [| d o IH]; intros Ho; [reflexivity |].
  unfold chars in Ho. simpl in Ho. apply Forall_cons in Ho as [Hd Ho].
  destruct o as [| e o].
  - simpl. apply Ascii.eqb_neq. exact Hd.
  - apply IH, Ho.
Qed.

(** A name whose last label is the origin is returned as it is. *)
Lemma normalize_name_fixed (origin s : string) :
  origin <> "" ->
  List.last (Client.split "." s) "" = origin ->
  normalize_name origin s = s.
Proof.
  intros Ho Hlast. unfold normalize_name.
  destruct (ends_with "." s) eqn:E.
  - apply (ends_with_last_empty "." s "") in E. unfold Client.split in Hlast. congruence.
  - rewrite Hlast, String.eqb_refl. reflexivity.
Qed.

(** The last label of a normalized name is the origin. *)
Lemma normalize_name_last (origin name : string) :
  Forall (fun d => d <> "."%char) (chars origin) ->
  List.last (Client.split "." (normalize_name origin name)) "" = origin.
Proof.
  intros Hdots. unfold normalize_name.
  set (s := if ends_with "." name then drop_last name else name).
  assert (Hself : List.last (Client.split "." origin) "" = origin)
    by (unfold Client.split; rewrite split_from_no_sep by exact Hdots; reflexivity).
  destruct (String.eqb_spec (List.last (Client.split "." s) "") origin) as [He | _];
    [exact He |].
  destruct (_ || _); [exact Hself |].
  unfold Client.split. change (s +:+ "." +:+ origin) with (s +:+ String "." origin).
  rewrite last_split_from_app. exact Hself.
Qed.

(** X11: for an origin without dots, which every key text is, the last label
    of a normalized name is the origin, and normalizing twice is normalizing
    once; ["@"], the empty name and the origin itself all normalize to the
    origin. *)
Theorem normalize_name_idempotent (origin name : string) :
  origin <> "" ->
  Forall (fun d => d <> "."%char) (chars origin) ->
  List.last (Client.split "." (normalize_name origin name)) "" = origin /\
  normalize_name origin (normalize_name origin name) = normalize_name origin name /\
  normalize_name origin "@" = origin /\
  normalize_name origin "" = origin /\
  normalize_name origin origin = origin.
Proof.
  intros Ho Hdots.
  assert (Hself : List.last (Client.split "." origin) "" = origin)
    by (unfold Client.split; rewrite split_from_no_sep by exact Hdots; reflexivity).
  split; [apply normalize_name_last, Hdots |].
  split; [apply normalize_name_fixed, normalize_name_last; assumption |].
  split; [| split].
  - change (normalize_name origin "@")
      with (if String.eqb "@" origin then "@"
            else if String.eqb "@" "@" || String.eqb "@" "" then origin
                 else "@" +:+ "." +:+ origin).
    destruct (String.eqb_spec "@" origin) as [<- | _]; reflexivity.
  - change (normalize_name origin "")
      with (if String.eqb "" origin then ""
            else if String.eqb "" "@" || String.eqb "" "" then origin
                 else "" +:+ "." +:+ origin).
    destruct (String.eqb_spec "" origin) as [<- | _]; reflexivity.
  - apply normalize_name_fixed; assumption.
Qed.

Lemma normalize_name_idempotent_witness :
  List.last (Client.split "." (normalize_name demo_key_text "www")) "" = demo_key_text /\
  normalize_name demo_key_text (normalize_name demo_key_text "www")
    = normalize_name demo_key_text "www" /\
  normalize_name demo_key_text "@" = demo_key_text /\
  normalize_name demo_key_text "" = demo_key_text /\
  normalize_name demo_key_text demo_key_text = demo_key_text.
Proof.
  apply (normalize_name_idempotent demo_key_text "www").
  - discriminate.
  - vm_compute. repeat constructor; discriminate.
Defined.

Lemma alphabet_no_dot (c : ascii) : is_Some (Crypto.alphabet_map c) -> c <> "."%char.
Proof. intros [i Hi] ->. discriminate. Qed.

Lemma key_text_origin (pk : PublicKey) :
  key pk <> [] ->
  PublicKeyM.to_z32 pk <> "" /\
  Forall (fun d => d <> "."%char) (chars (PublicKeyM.to_z32 pk)).
Proof.
  intros Hk. unfold PublicKeyM.to_z32.
  destruct (CodecMore.encode_length_chars (key pk)) as [Hlen Hall]. split.
  - intros He. rewrite He in Hlen. simpl in Hlen.
    destruct (key pk) as [| x l]; [contradiction |]. simpl length in Hlen.
    Z.div_mod_to_equations. lia.
  - eapply Forall_impl; [exact Hall |]. intros c. apply alphabet_no_dot.
Qed.

(** X12: the records of a name are the answers whose name is the normalized
    name; asking by the normalized (absolute) name gives the same records as
    asking by the relative one; and the fresh records are among them, namely
    those whose TTL exceeds the whole seconds since [last_seen]. *)
Theorem resource_records_by_any_name (self : SignedPacket) (name : string)
    (current_time : Z) :
  key (sp_public_key self) <> [] ->
  resource_records self (normalize_name (PublicKeyM.to_z32 (sp_public_key self)) name)
    = resource_records self name /\
  (forall rr, In rr (resource_records self name) <->
     In rr (answers (packet self)) /\
     RR.name rr = normalize_name (PublicKeyM.to_z32 (sp_public_key self)) name) /\
  (forall rr, In rr (fresh_resource_records current_time self name) <->
     In rr (resource_records self name) /\
     current_time - last_seen self / 1000000 < RR.ttl rr).
Proof.
  intros Hk. destruct (key_text_origin _ Hk) as [Ho Hdots].
  assert (Hidem :
    normalize_name (PublicKeyM.to_z32 (sp_public_key self))
      (normalize_name (PublicKeyM.to_z32 (sp_public_key self)) name)
    = normalize_name (PublicKeyM.to_z32 (sp_public_key self)) name)
    by (apply normalize_name_fixed, normalize_name_last; assumption).
  split; [| split].
  - unfold resource_records. rewrite Hidem. reflexivity.
  - intros rr. unfold resource_records. rewrite filter_In, String.eqb_eq. reflexivity.
  - intros rr. unfold fresh_resource_records, resource_records.
    rewrite !filter_In, andb_true_iff, String.eqb_eq, Z.ltb_lt. tauto.
Qed.


Lemma resource_records_by_any_name_witness :
  resource_records demo_signed_packet
    (normalize_name (PublicKeyM.to_z32 (sp_public_key demo_signed_packet)) "foo")
    = resource_records demo_signed_packet "foo" /\
  (forall rr, In rr (resource_records demo_signed_packet "foo") <->
     In rr (answers (packet demo_signed_packet)) /\
     RR.name rr = normalize_name (PublicKeyM.to_z32 (sp_public_key demo_signed_packet)) "foo") /\
  (forall rr, In rr (fresh_resource_records 1700000010 demo_signed_packet "foo") <->
     In rr (resource_records demo_signed_packet "foo") /\
     1700000010 - last_seen demo_signed_packet / 1000000 < RR.ttl rr).
Proof.
  apply (resource_records_by_any_name demo_signed_packet "foo" 1700000010). discriminate.
Defined.

Example normalize_name_samples :
  normalize_name "o" "www" = "www.o" /\ normalize_name "o" "www.o." = "www.o" /\
  normalize_name "o" "www." = "www.o" /\ normalize_name "o" "a.@" = "o".
Proof. repeat split. Qed.

End NamesMore.

(** ** Packet headers and record lifetimes *)

Module PacketMore.
Import PacketM.

Lemma flags_check_all_true : flags_check_all = true.
Proof. vm_compute. reflexivity. Qed.

Lemma below_elem (n : nat) (x : Z) : 0 <= x < Z.of_nat n -> In x (below n).
Proof.
  intros H. unfold below. apply in_map_iff. exists (Z.to_nat x).
  split; [lia | apply in_seq; lia].
Qed.

Lemma bool_elem (b : bool) : In b [true; false].
Proof. destruct b; simpl; auto. Qed.

Lemma flags_check_every (q a t d r : bool) (o zz rc : Z) :
  0 <= o < 16 -> 0 <= zz < 8 -> 0 <= rc < 16 -> flags_check q a t d r o zz rc = true.
Proof.
  intros Ho Hz Hr. pose proof flags_check_all_true as H. unfold flags_check_all in H.
  rewrite forallb_forall in H. specialize (H q (bool_elem q)).
  rewrite forallb_forall in H. specialize (H a (bool_elem a)).
  rewrite forallb_forall in H. specialize (H t (bool_elem t)).
  rewrite forallb_forall in H. specialize (H d (bool_elem d)).
  rewrite forallb_forall in H. specialize (H r (bool_elem r)).
  rewrite forallb_forall in H. specialize (H o (below_elem 16 o Ho)).
  rewrite forallb_forall in H. specialize (H zz (below_elem 8 zz Hz)).
  rewrite forallb_forall in H. exact (H rc (below_elem 16 rc Hr)).
Qed.

Lemma land_ones_range (x : Z) (k : Z) : 0 <= k -> 0 <= Z.land x (Z.ones k) < 2 ^ k.
Proof. intros Hk. rewrite Z.land_ones by lia. apply Z.mod_pos_bound. lia. Qed.

(** X13: the flags word that [build_bytes_vec_compressed] assembles fits 16
    bits, and the header that [from_bytes] reads from it has the same five
    flag bits and the opcode, reserved field and response code reduced to 4,
    3 and 4 bits. *)
Theorem flags_roundtrip (p : Packet) :
  0 <= build_flags p < 65536 /\
  header_of_flags (id p) (build_flags p) =
    mkPacket [] (id p) (qr p) (Z.land (opcode p) 15) (aa p) (tc p) (rd p) (ra p)
      (Z.land (z p) 7) (Z.land (rcode p) 15).
Proof.
  destruct p as [ans i q o a t d r zz rc]. cbn [id qr opcode aa tc rd ra z rcode].
  pose proof (flags_check_every q a t d r (Z.land o 15) (Z.land zz 7) (Z.land rc 15)
                (land_ones_range o 4 ltac:(lia)) (land_ones_range zz 3 ltac:(lia))
                (land_ones_range rc 4 ltac:(lia))) as H.
  unfold flags_check in H. cbv zeta in H.
  assert (Hw : flags_word q a t d r (Z.land o 15) (Z.land zz 7) (Z.land rc 15)
               = build_flags (mkPacket ans i q o a t d r zz rc)).
  { unfold flags_word, build_flags. cbn [qr opcode aa tc rd ra z rcode].
    change 15 with (Z.ones 4). change 7 with (Z.ones 3).
    rewrite <- !Z.land_assoc, !Z.land_diag. reflexivity. }
  rewrite Hw in H.
  repeat (apply andb_prop in H as [H ?]).
  repeat match goal with
         | Hb : Bool.eqb _ _ = true |- _ => apply Bool.eqb_prop in Hb
         | Hb : (_ =? _) = true |- _ => apply Z.eqb_eq in Hb
         | Hb : (_ <=? _) = true |- _ => apply Z.leb_le in Hb
         | Hb : (_ <? _) = true |- _ => apply Z.ltb_lt in Hb
         end.
  split; [lia |].
  unfold header_of_flags in *. cbn [qr opcode aa tc rd ra z rcode] in *.
  congruence.
Qed.

(** X14: [is_expired] compares strictly and [remaining_ttl] does not: an
    expired record has no remaining TTL, the remaining TTL is 0 exactly from
    [current_time = ttl] on, and at [current_time = ttl] the record has
    nothing left and yet is not expired. *)
Theorem expiry_and_remaining (rr : RR.t) (current_time : Z) :
  0 <= RRM.remaining_ttl rr current_time /\
  (RRM.is_expired rr current_time = true -> RRM.remaining_ttl rr current_time = 0) /\
  (RRM.remaining_ttl rr current_time = 0 <-> RR.ttl rr <= current_time) /\
  (RRM.remaining_ttl rr current_time = 0 /\ RRM.is_expired rr current_time = false
     <-> current_time = RR.ttl rr).
Proof.
  unfold RRM.remaining_ttl, RRM.is_expired.
  destruct (Z.ltb_spec (RR.ttl rr) current_time); repeat split; intros; try lia;
    try discriminate; try (destruct H0; lia).
Qed.

(** [add_answer] appends: after [new_reply(id)] and any sequence of
    [add_answer], the answers are that sequence in order, and the header
    fields are those of [new_reply]. *)
Theorem add_answers_in_order (i : Z) (rrs : list RR.t) :
  answers (fold_left add_answer rrs (new_reply i)) = rrs /\
  build_flags (fold_left add_answer rrs (new_reply i)) = build_flags (new_reply i) /\
  id (fold_left add_answer rrs (new_reply i)) = i.
Proof.
  assert (H : forall p, answers (fold_left add_answer rrs p) = answers p ++ rrs /\
                        build_flags (fold_left add_answer rrs p) = build_flags p /\
                        id (fold_left add_answer rrs p) = id p).
  { induction rrs as [| rr rrs IH]; intros p; simpl.
    - rewrite app_nil_r. auto.
    - destruct (IH (add_answer p rr)) as (Ha & Hf & Hi). rewrite Ha, Hf, Hi.
      simpl. rewrite <- app_assoc. auto. }
  destruct (H (new_reply i)) as (Ha & Hf & Hi). auto.
Qed.

End PacketMore.

(** ** More on the lookup engine *)

Module ClientMore.
Import Client.

Lemma inet_ntoa_length (b : bytes) :
  (length b = 4%nat -> exists s, inet_ntoa b = Ok s) /\
  (length b <> 4%nat -> inet_ntoa b = Raise OSError).
Proof.
  destruct b as [| a [| b [| c [| d [| e l]]]]]; simpl; split; intros H;
    try lia; try discriminate; try reflexivity; eauto.
Qed.

Lemma unpack_H_length (b : bytes) :
  (length b = 2%nat -> exists p, unpack_H b = Ok p /\ 0 <= p < 65536) /\
  (length b <> 2%nat -> unpack_H b = Raise StructError).
Proof.
  destruct b as [| hi [| lo [| e l]]]; simpl; split; intros H;
    try lia; try discriminate; try reflexivity.
  pose proof (byte_to_Z_range hi). pose proof (byte_to_Z_range lo).
  eexists. split; [reflexivity | lia].
Qed.

(** Whole records decode, one node each. *)
Lemma decode_nodes_loop_whole (n fuel : nat) (data : bytes) (acc : list string) :
  length data = (26 * n)%nat -> (length data <= fuel)%nat ->
  exists l, decode_nodes_loop fuel data acc = Ok (acc ++ l) /\ length l = n.
Proof.
  revert fuel data acc. induction n as [| n IH]; intros fuel data acc Hlen Hfuel.
  - destruct data; [| simpl in Hlen; lia]. exists []. rewrite app_nil_r.
    destruct fuel; auto.
  - destruct data as [| x data]; [simpl in Hlen; lia |].
    destruct fuel as [| fuel]; [simpl in Hfuel; lia |].
    cbn [decode_nodes_loop].
    destruct (proj1 (inet_ntoa_length (slice 20 24 (x :: data)))) as [ip Hip].
    { unfold slice. rewrite length_take, length_drop. lia. }
    destruct (proj1 (unpack_H_length (slice 24 26 (x :: data)))) as (port & Hport & _).
    { unfold slice. rewrite length_take, length_drop. lia. }
    rewrite Hip, Hport. unfold mbind, outcome_bind. cbv beta iota.
    destruct (IH fuel (drop 26 (x :: data)) (acc ++ [ip +:+ ":" +:+ str_int port]))
      as (l & Hl & Hn).
    { rewrite length_drop. lia. }
    { rewrite length_drop. simpl in *. lia. }
    exists ((ip +:+ ":" +:+ str_int port) :: l). rewrite Hl, <- app_assoc. simpl.
    split; [reflexivity | lia].
Qed.

(** A trailing partial record makes the decoding raise. *)
Lemma decode_nodes_loop_partial (n k fuel : nat) (data : bytes) (acc : list string) :
  length data = (26 * n + k)%nat -> (0 < k < 26)%nat -> (length data <= fuel)%nat ->
  decode_nodes_loop fuel data acc = Raise OSError \/
  decode_nodes_loop fuel data acc = Raise StructError.
Proof.
  revert fuel data acc. induction n as [| n IH]; intros fuel data acc Hlen Hk Hfuel.
  - destruct data as [| x data]; [simpl in Hlen; lia |].
    destruct fuel as [| fuel]; [simpl in Hfuel; lia |].
    cbn [decode_nodes_loop].
    destruct (Nat.lt_ge_cases (length (x :: data)) 24) as [Hshort | Hlong].
    + rewrite (proj2 (inet_ntoa_length (slice 20 24 (x :: data)))).
      * left. reflexivity.
      * unfold slice. rewrite length_take, length_drop. lia.
    + destruct (proj1 (inet_ntoa_length (slice 20 24 (x :: data)))) as [ip Hip].
      { unfold slice. rewrite length_take, length_drop. lia. }
      rewrite Hip. unfold mbind, outcome_bind. cbv beta iota.
      rewrite (proj2 (unpack_H_length (slice 24 26 (x :: data)))).
      * right. reflexivity.
      * unfold slice. rewrite length_take, length_drop. lia.
  - destruct data as [| x data]; [simpl in Hlen; lia |].
    destruct fuel as [| fuel]; [simpl in Hfuel; lia |].
    cbn [decode_nodes_loop].
    destruct (proj1 (inet_ntoa_length (slice 20 24 (x :: data)))) as [ip Hip].
    { unfold slice. rewrite length_take, length_drop. lia. }
    destruct (proj1 (unpack_H_length (slice 24 26 (x :: data)))) as (port & Hport & _).
    { unfold slice. rewrite length_take, length_drop. lia. }
    rewrite Hip, Hport. unfold mbind, outcome_bind. cbv beta iota. apply IH; try assumption.
    + rewrite length_drop. lia.
    + rewrite length_drop. simpl in *. lia.
Qed.

(** X15: [_decode_nodes] returns one node for each 26-byte record when the
    input is a whole number of records, and raises (from [inet_ntoa] or from
    [struct.unpack]) when a partial record trails. *)
Theorem decode_nodes_outcome (nodes_data : bytes) :
  ((length nodes_data mod 26 = 0)%nat ->
   exists l, _decode_nodes nodes_data = Ok l /\
             length l = (length nodes_data / 26)%nat) /\
  ((length nodes_data mod 26 <> 0)%nat ->
   _decode_nodes nodes_data = Raise OSError \/
   _decode_nodes nodes_data = Raise StructError).
Proof.
  pose proof (Nat.div_mod_eq (length nodes_data) 26) as Hdm.
  unfold _decode_nodes. split; intros Hmod.
  - destruct (decode_nodes_loop_whole (length nodes_data / 26) (length nodes_data)
                nodes_data []) as (l & Hl & Hn); [lia | lia |].
    exists l. auto.
  - apply (decode_nodes_loop_partial (length nodes_data / 26) (length nodes_data mod 26));
      [lia | | lia].
    pose proof (Nat.mod_upper_bound (length nodes_data) 26). lia.
Qed.


(** *** Decoded nodes are addresses *)

Lemma numeral_host_chars (n : Z) :
  Forall (fun c => c <> ":"%char /\ c <> "@"%char) (chars (str_int n)).
Proof.
  eapply Forall_impl; [apply SignedPacketMore.str_int_chars |].
  intros c Hc. apply SignedPacketMore.numeral_char_cases in Hc. tauto.
Qed.

Lemma inet_ntoa_chars (b : bytes) (s : string) :
  inet_ntoa b = Ok s -> Forall (fun c => c <> ":"%char /\ c <> "@"%char) (chars s).
Proof.
  destruct b as [| a [| b [| c [| d [| e l]]]]]; try discriminate.
  intros [= <-]. rewrite !CodecMore.chars_app.
  repeat (apply Forall_app; split); try apply numeral_host_chars;
    (constructor; [split; discriminate | constructor]).
Qed.

Lemma decode_nodes_loop_nodes (fuel : nat) (data : bytes) (acc res : list string) :
  decode_nodes_loop fuel data acc = Ok res ->
  Forall decoded_node acc -> Forall decoded_node res.
Proof.
  revert data acc. induction fuel as [| fuel IH]; intros data acc H Hacc.
  - destruct data; simpl in H; injection H as <-; exact Hacc.
  - destruct data as [| x data]; [simpl in H; injection H as <-; exact Hacc |].
    cbn [decode_nodes_loop] in H.
    destruct (inet_ntoa (slice 20 24 (x :: data))) as [ip | e] eqn:Hip; [| discriminate].
    destruct (unpack_H (slice 24 26 (x :: data))) as [port | e] eqn:Hport; [| discriminate].
    unfold mbind, outcome_bind in H. cbv beta iota in H.
    apply IH in H; [exact H |].
    apply Forall_app. split; [exact Hacc |]. constructor; [| constructor].
    exists ip, port. split; [reflexivity |]. split.
    + destruct (Nat.eq_dec (length (slice 24 26 (x :: data))) 2%nat) as [H2 | H2].
      * destruct (proj1 (unpack_H_length _) H2) as (p & Hp & Hr). congruence.
      * rewrite (proj2 (unpack_H_length _) H2) in Hport. discriminate.
    + apply inet_ntoa_chars in Hip. exact Hip.
Qed.

Lemma decode_nodes_nodes (data : bytes) (l : list string) :
  _decode_nodes data = Ok l -> Forall decoded_node l.
Proof. intros H. eapply decode_nodes_loop_nodes; [exact H | constructor]. Qed.

Lemma contains_false (c : ascii) (s : string) :
  Forall (fun d => d <> c) (chars s) -> contains c s = false.
Proof.
  induction s as [| d s IH]; intros Hs; [reflexivity |].
  unfold chars in Hs. simpl in Hs. apply Forall_cons in Hs as [Hd Hs]. simpl.
  rewrite (IH Hs), orb_false_r. apply Ascii.eqb_neq. congruence.
Qed.

Lemma split_from_one_sep (c : ascii) (a b cur : string) :
  Forall (fun d => d <> c) (chars a) -> Forall (fun d => d <> c) (chars b) ->
  split_from c (a +:+ String c b) cur = [cur +:+ a; b].
Proof.
  revert cur. induction a as [| d a IH]; intros cur Ha Hb.
  - simpl. rewrite Ascii.eqb_refl, NamesMore.append_empty_r.
    rewrite NamesMore.split_from_no_sep by exact Hb. reflexivity.
  - unfold chars in Ha. simpl in Ha. apply Forall_cons in Ha as [Hd Ha].
    rewrite NamesMore.append_cons. simpl.
    destruct (Ascii.eqb_spec c d) as [-> | _]; [contradiction |].
    rewrite IH by assumption. rewrite NamesMore.append_assoc. reflexivity.
Qed.

(** *** Peer values *)

(** The [try] body of one turn of [_connect_to_peers] gets as far as
    formatting [peer] exactly for a value of 6 bytes. *)
Lemma peer_value_formats (peer_value : bytes) :
  (length peer_value = 6%nat ->
   exists p, (ip ← inet_ntoa (take 4 peer_value);
              port ← unpack_H (drop 4 peer_value);
              Ok (ip +:+ ":" +:+ str_int port)) = Ok p) /\
  (length peer_value <> 6%nat ->
   exists e, (ip ← inet_ntoa (take 4 peer_value);
              port ← unpack_H (drop 4 peer_value);
              Ok (ip +:+ ":" +:+ str_int port)) = Raise e).
Proof.
  split; intros Hlen.
  - destruct peer_value as [| a [| b [| c [| d [| e [| f [| g l]]]]]]]; try discriminate.
    eexists. reflexivity.
  - destruct (Nat.eq_dec (length (take 4 peer_value)) 4%nat) as [H4 | H4].
    + destruct (proj1 (inet_ntoa_length _) H4) as [ip ->].
      unfold mbind, outcome_bind. cbv beta iota.
      rewrite (proj2 (unpack_H_length (drop 4 peer_value))); [eexists; reflexivity |].
      rewrite length_take in H4. rewrite length_drop. lia.
    + rewrite (proj2 (inet_ntoa_length _) H4). eexists. reflexivity.
Qed.

(** Once [peer] is bound, every later turn fails and is logged, and the
    loop runs to its end. *)
Lemma connect_to_peers_bound (peer_values : list bytes) (p : string) (tk : PublicKey) :
  _connect_to_peers peer_values (Some p) tk = Ok None.
Proof.
  revert p. induction peer_values as [| v rest IH]; intros p; [reflexivity |].
  cbn [_connect_to_peers].
  destruct (ip ← inet_ntoa (take 4 v); port ← unpack_H (drop 4 v);
            Ok (ip +:+ ":" +:+ str_int port)) as [q | e]; simpl; apply IH.
Qed.

Lemma connect_to_peers_first (v : bytes) (rest : list bytes) (tk : PublicKey) :
  (length v = 6%nat -> _connect_to_peers (v :: rest) None tk = Ok None) /\
  (length v <> 6%nat -> _connect_to_peers (v :: rest) None tk = Raise UnboundLocalError).
Proof.
  split; intros Hlen; cbn [_connect_to_peers].
  - destruct (proj1 (peer_value_formats v) Hlen) as [p ->]. simpl.
    apply connect_to_peers_bound.
  - destruct (proj2 (peer_value_formats v) Hlen) as [e ->]. reflexivity.
Qed.

Lemma connect_to_peers_no_packet (peer_values : list bytes) (tk : PublicKey)
    (sp : SignedPacket) :
  _connect_to_peers peer_values None tk <> Ok (Some sp).
Proof.
  destruct peer_values as [| v rest]; [discriminate |].
  destruct (connect_to_peers_first v rest tk) as [H6 Hn6].
  destruct (Nat.eq_dec (length v) 6%nat) as [Hlen | Hlen];
    [rewrite (H6 Hlen) | rewrite (Hn6 Hlen)]; discriminate.
Qed.

(** X16: [_connect_to_peers] never returns a packet: its constructor call
    gives three arguments for five fields and raises [TypeError] in every
    turn that reaches it, which the handler logs.  The first peer value
    decides the outcome: [None] without peer values or when the first value
    has 6 bytes, and [UnboundLocalError] from the handler when it has not,
    whatever values follow. *)
Theorem connect_to_peers_outcome (peer_values : list bytes) (tk : PublicKey) :
  (forall sp, _connect_to_peers peer_values None tk <> Ok (Some sp)) /\
  (_connect_to_peers peer_values None tk = Ok None <->
   peer_values = [] \/ exists v rest, peer_values = v :: rest /\ length v = 6%nat) /\
  (_connect_to_peers peer_values None tk = Raise UnboundLocalError <->
   exists v rest, peer_values = v :: rest /\ length v <> 6%nat).
Proof.
  destruct peer_values as [| v rest].
  - split; [discriminate |]. split; split; try discriminate; auto.
    intros (v & rest & H & _). discriminate.
  - destruct (connect_to_peers_first v rest tk) as [H6 Hn6].
    destruct (Nat.eq_dec (length v) 6%nat) as [Hlen | Hlen].
    + rewrite (H6 Hlen). split; [discriminate |]. split; split; try discriminate.
      * intros _. right. eauto.
      * reflexivity.
      * intros (v' & rest' & [= <- <-] & Hv). contradiction.
    + rewrite (Hn6 Hlen). split; [discriminate |]. split; split; try discriminate.
      * intros [? | (v' & rest' & [= <- <-] & Hv)]; [discriminate | contradiction].
      * intros _. eauto.
      * reflexivity.
Qed.

Section EngineMore.

Variable py_int : string -> option Z.
Variable transport : nat -> string -> Z -> exchange.

Local Abbreviation _request_packet := (_request_packet py_int transport).

(** A node that [_decode_nodes] wrote parses, when [int] reads the decimal
    numerals of 16-bit numbers. *)
Lemma decoded_node_parses (s : string) :
  (forall n, 0 <= n < 65536 -> py_int (str_int n) = Some n) ->
  decoded_node s -> exists host port, parse_address py_int s = Address host port.
Proof.
  intros Hint (host & port & -> & Hport & Hhost).
  exists host, port. unfold parse_address.
  assert (Hno_at : contains "@" (host +:+ ":" +:+ str_int port) = false).
  { apply contains_false. rewrite !CodecMore.chars_app.
    repeat (apply Forall_app; split).
    - eapply Forall_impl; [exact Hhost |]. intros c Hc. exact (proj2 Hc).
    - constructor; [discriminate | constructor].
    - eapply Forall_impl; [apply numeral_host_chars |]. intros c Hc. exact (proj2 Hc). }
  rewrite Hno_at. unfold split.
  change (host +:+ ":" +:+ str_int port) with (host +:+ String ":" (str_int port)).
  rewrite split_from_one_sep.
  - simpl. rewrite (Hint port Hport). reflexivity.
  - eapply Forall_impl; [exact Hhost |]. intros c Hc. exact (proj1 Hc).
  - eapply Forall_impl; [apply numeral_host_chars |]. intros c Hc. exact (proj1 Hc).
Qed.

(** *** What a request does to the client *)

Lemma handle_response_known self tk resp res self' :
  handle_response self tk resp = (res, self') ->
  known_nodes self ⊆ known_nodes self' /\
  bootstrap_nodes self' = bootstrap_nodes self /\ cache self' = cache self /\
  requests self' = requests self /\ queried self' = queried self /\
  (forall sp, res <> Ok (Some (inl sp))) /\
  (forall l, res = Ok (Some (inr l)) ->
     known_nodes self' = known_nodes self ∪ list_to_set l /\ Forall decoded_node l).
Proof.
  unfold Client.handle_response. intros H.
  assert (Hsame : forall r0,
            (forall sp, r0 <> Ok (Some (inl sp))) ->
            (forall l, r0 <> Ok (Some (inr l))) ->
            (r0, self) = (res, self') ->
            known_nodes self ⊆ known_nodes self' /\
            bootstrap_nodes self' = bootstrap_nodes self /\ cache self' = cache self /\
            requests self' = requests self /\ queried self' = queried self /\
            (forall sp, res <> Ok (Some (inl sp))) /\
            (forall l, res = Ok (Some (inr l)) ->
               known_nodes self' = known_nodes self ∪ list_to_set l /\
               Forall decoded_node l)).
  { intros r0 H1 H2 [= <- <-].
    split; [set_solver |]. do 4 (split; [reflexivity |]). split; [exact H1 |].
    intros lst Hl. exfalso. exact (H2 lst Hl). }
  destruct (match r resp with
            | Some body => match nodes body with
                           | Some nd => _ ← _decode_nodes nd; Ok tt
                           | None => Ok tt
                           end
            | None => Ok tt
            end) as [[] | e];
    [| apply (Hsame (Raise e)); [discriminate | discriminate | exact H]].
  destruct (y_is_e resp);
    [apply (Hsame (Ok None)); [discriminate | discriminate | exact H] |].
  destruct (r resp) as [body |];
    [| apply (Hsame (Ok None)); [discriminate | discriminate | exact H]].
  destruct (values body) as [peer_values |].
  - pose proof (connect_to_peers_no_packet peer_values tk) as Hno.
    destruct (_connect_to_peers peer_values None tk) as [[sp |] | e] eqn:Hc.
    + exfalso. exact (Hno sp eq_refl).
    + apply (Hsame (Ok None)); [discriminate | discriminate | exact H].
    + apply (Hsame (Raise e)); [discriminate | discriminate | exact H].
  - destruct (nodes body) as [nd |];
      [| apply (Hsame (Ok None)); [discriminate | discriminate | exact H]].
    destruct (_decode_nodes nd) as [decoded | e] eqn:Hd;
      [| apply (Hsame (Raise e)); [discriminate | discriminate | exact H]].
    injection H as <- <-. simpl.
    split; [set_solver |]. do 4 (split; [reflexivity |]). split; [discriminate |].
    intros lst [= <-]. split; [reflexivity |]. apply decode_nodes_nodes in Hd. exact Hd.
Qed.

Lemma request_packet_known self node tk record_type res self' :
  _request_packet self node tk record_type = (res, self') ->
  known_nodes self ⊆ known_nodes self' /\
  bootstrap_nodes self' = bootstrap_nodes self /\ cache self' = cache self /\
  requests self' = requests self ++ [node] /\ queried self' = queried self /\
  (forall sp, res <> Ok (Some (inl sp))) /\
  (forall l, res = Ok (Some (inr l)) ->
     known_nodes self' = known_nodes self ∪ list_to_set l /\ Forall decoded_node l).
Proof.
  unfold Client._request_packet. intros H.
  assert (Hsame : forall r0,
            (forall sp, r0 <> Ok (Some (inl sp))) ->
            (forall l, r0 <> Ok (Some (inr l))) ->
            (r0, note_request self node) = (res, self') ->
            known_nodes self ⊆ known_nodes self' /\
            bootstrap_nodes self' = bootstrap_nodes self /\ cache self' = cache self /\
            requests self' = requests self ++ [node] /\ queried self' = queried self /\
            (forall sp, res <> Ok (Some (inl sp))) /\
            (forall l, res = Ok (Some (inr l)) ->
               known_nodes self' = known_nodes self ∪ list_to_set l /\
               Forall decoded_node l)).
  { intros r0 H1 H2 [= <- <-]. simpl.
    split; [set_solver |]. do 4 (split; [reflexivity |]). split; [exact H1 |].
    intros lst Hl. exfalso. exact (H2 lst Hl). }
  destruct (parse_address py_int node) as [| h p | h p];
    try (apply (Hsame (Raise UnboundLocalError)); [discriminate | discriminate | exact H]).
  cbv zeta in H.
  destruct (transport (length (requests self)) h p) as [| | resp];
    try (apply (Hsame (Ok None)); [discriminate | discriminate | exact H]).
  destruct (handle_response (note_request self node) tk resp) as [r0 c] eqn:Hh.
  apply handle_response_known in Hh as (Hk & Hb & Hc & Hr & Hq & Hno & Hl).
  simpl in Hk, Hb, Hc, Hr, Hq, Hl.
  destruct r0 as [res0 | e].
  - injection H as <- <-.
    exact (conj Hk (conj Hb (conj Hc (conj Hr (conj Hq (conj Hno Hl)))))).
  - injection H as <- <-.
    split; [exact Hk |]. split; [exact Hb |]. split; [exact Hc |]. split; [exact Hr |].
    split; [exact Hq |]. split; intros; congruence.
Qed.

(** X18: a call of [_request_packet] with its three arguments only adds to
    [known_nodes] and changes neither [bootstrap_nodes] nor the cache; when
    it returns nodes, these are what it has added, each written as a host
    and the decimal numeral of a 16-bit port; otherwise [known_nodes] is as
    it was. *)
Theorem request_packet_known_nodes self node tk record_type res self' :
  _request_packet self node tk record_type = (res, self') ->
  known_nodes self ⊆ known_nodes self' /\
  bootstrap_nodes self' = bootstrap_nodes self /\ cache self' = cache self /\
  requests self' = requests self ++ [node] /\
  (forall l, res = Ok (Some (inr l)) ->
     known_nodes self' = known_nodes self ∪ list_to_set l /\ Forall decoded_node l) /\
  ((forall l, res <> Ok (Some (inr l))) -> known_nodes self' = known_nodes self).
Proof.
  intros H. pose proof H as H'.
  apply request_packet_known in H as (Hk & Hb & Hc & Hr & _ & _ & Hl).
  split; [exact Hk |]. split; [exact Hb |]. split; [exact Hc |]. split; [exact Hr |].
  split; [exact Hl |].
  intros Hno. unfold Client._request_packet in H'.
  destruct (parse_address py_int node) as [| h p | h p];
    try (injection H' as _ <-; reflexivity).
  cbv zeta in H'.
  destruct (transport (length (requests self)) h p) as [| | resp];
    try (injection H' as _ <-; reflexivity).
  unfold Client.handle_response in H'.
  repeat case_match; simplify_eq; try reflexivity.
  all: exfalso; eapply Hno; reflexivity.
Qed.

(** X20: [_request_packet], called with its three arguments, never returns
    a packet; it raises exactly when the address of the node does not parse
    as [host:port] with a port that [int] reads, and then it raises
    [UnboundLocalError]; with an address that parses, a time-out, a fault of
    the exchange, an error reply and a reply that cannot be decoded all end
    as [None]. *)
Theorem request_packet_outcome self node tk record_type :
  (forall sp c, _request_packet self node tk record_type <> (Ok (Some (inl sp)), c)) /\
  ((forall host port, parse_address py_int node <> Address host port) ->
   _request_packet self node tk record_type
     = (Raise UnboundLocalError, note_request self node)) /\
  (forall host port,
     parse_address py_int node = Address host port ->
     (exists res c, _request_packet self node tk record_type = (Ok res, c)) /\
     (transport (length (requests self)) host port = SocketTimeout \/
      transport (length (requests self)) host port = Fault \/
      (exists resp, transport (length (requests self)) host port = Received resp /\
         (y_is_e resp = true \/ r resp = None \/
          exists e, fst (handle_response (note_request self node) tk resp) = Raise e)) ->
      fst (_request_packet self node tk record_type) = Ok None)).
Proof.
  split; [| split].
  - intros sp c H. apply request_packet_known in H as (_ & _ & _ & _ & _ & Hno & _).
    exact (Hno sp eq_refl).
  - intros Hp. apply ClientFacts.request_packet_raises. exact Hp.
  - intros host port Haddr. unfold Client._request_packet. rewrite Haddr. cbv zeta.
    split.
    + destruct (transport _ host port) as [| | resp]; try (eexists _, _; reflexivity).
      destruct (handle_response _ tk resp) as [[res | e] c]; eexists _, _; reflexivity.
    + intros [-> | [-> | (resp & -> & Hresp)]]; try reflexivity.
      destruct Hresp as [Hy | [Hr | [e He]]].
      * unfold Client.handle_response. rewrite Hy.
        repeat case_match; simplify_eq; reflexivity.
      * unfold Client.handle_response. rewrite Hr. simpl.
        destruct (y_is_e resp); reflexivity.
      * destruct (handle_response _ tk resp) as [[res | e'] c]; [discriminate | reflexivity].
Qed.

End EngineMore.

Section LookupMore.

Variable clock : nat -> Q.
Variable set_pop : gset string -> string.

Local Abbreviation lookup_finish := (lookup_finish clock).
Local Abbreviation lookup_miss := (lookup_miss clock set_pop).
Local Abbreviation lookup := (lookup clock set_pop).

Lemma bootstrap_set_empty (l : list string) :
  (list_to_set l : gset string) = ∅ <-> l = [].
Proof.
  split; [| intros ->; reflexivity].
  destruct l as [| n l]; [reflexivity |]. intros He.
  assert (Hn : n ∈ (list_to_set (n :: l) : gset string)) by set_solver.
  rewrite He in Hn. set_solver.
Qed.

(** How a miss ends: [None] when the loop does not start, and [TypeError]
    at its first call otherwise. *)
Lemma lookup_miss_ends self K tk max_attempts timeout :
  (bootstrap_nodes self = [] \/ max_attempts <= 0 \/
   ~ (clock (S (clock_reads self)) - clock (clock_reads self) < inject_Z timeout)%Q ->
   exists self',
     lookup_miss _request_packet_of_two self K tk max_attempts timeout = (Ok None, self') /\
     queried self' = queried self /\ requests self' = requests self /\
     cache self' = cache self /\ known_nodes self' = known_nodes self) /\
  (bootstrap_nodes self <> [] -> 0 < max_attempts ->
   (clock (S (clock_reads self)) - clock (clock_reads self) < inject_Z timeout)%Q ->
   lookup_miss _request_packet_of_two self K tk max_attempts timeout =
     (Raise TypeError,
      note_query (tick (tick self)) (set_pop (list_to_set (bootstrap_nodes self))))).
Proof.
  rewrite ClientFacts.lookup_miss_code.
  assert (Hfin : forall c,
            queried c = queried self -> requests c = requests self ->
            cache c = cache self -> known_nodes c = known_nodes self ->
            exists self',
              lookup_finish c 0 max_attempts = (Ok None, self') /\
              queried self' = queried self /\ requests self' = requests self /\
              cache self' = cache self /\ known_nodes self' = known_nodes self).
  { intros c H1 H2 H3 H4.
    destruct (lookup_finish c 0 max_attempts) as [res self'] eqn:Hf.
    apply ClientFacts.lookup_finish_frame in Hf as (-> & Hq & Hc & Hr & Hk & _).
    exists self'. split; [reflexivity |]. repeat split; congruence. }
  split.
  - intros Hstop.
    destruct (decide _) as [He | Hne]; [apply Hfin; reflexivity |].
    destruct (Z.ltb_spec 0 max_attempts) as [Hlt | Hge]; simpl; [| apply Hfin; reflexivity].
    destruct (Qltb _ _) eqn:Hq; simpl; [| apply Hfin; reflexivity].
    apply ClientFacts.Qltb_lt in Hq.
    destruct Hstop as [Hb | [Hm | Ht]].
    + exfalso. apply Hne. apply bootstrap_set_empty. exact Hb.
    + lia.
    + contradiction.
  - intros Hb Hm Ht.
    destruct (decide _) as [He | Hne]; [apply bootstrap_set_empty in He; contradiction |].
    destruct (Z.ltb_spec 0 max_attempts) as [Hlt | Hge]; [| lia]. simpl.
    apply ClientFacts.Qltb_lt in Ht. rewrite Ht. reflexivity.
Qed.

(** X17: on a client with a cache attached that holds nothing for the key,
    [lookup] returns [None] exactly when its loop does not start: there is
    no bootstrap node, or the attempt budget is 0 or less, or the time is up
    at the first test.  It has then popped no node, made no request, and
    left the cache and the known nodes as they were. *)
Theorem lookup_without_attempts self K tk entries max_attempts timeout :
  PublicKeyM.init (KeyStr K) = Ok tk ->
  cache self = Some entries ->
  entries !! K = None ->
  ((exists self', lookup self K max_attempts timeout = (Ok None, self')) <->
   (bootstrap_nodes self = [] \/ max_attempts <= 0 \/
    ~ (clock (S (clock_reads self)) - clock (clock_reads self) < inject_Z timeout)%Q)) /\
  (forall self',
     lookup self K max_attempts timeout = (Ok None, self') ->
     queried self' = queried self /\ requests self' = requests self /\
     cache self' = cache self /\ known_nodes self' = known_nodes self).
Proof.
  intros Hinit Hcache Hget. rewrite ClientFacts.lookup_code, Hinit, Hcache, Hget.
  destruct (lookup_miss_ends self K tk max_attempts timeout) as [Hstop Hgo].
  split; [split |].
  - intros [self' H].
    destruct (decide (bootstrap_nodes self = [])) as [| Hb]; [auto |].
    destruct (Z.le_gt_cases max_attempts 0) as [| Hm]; [auto |].
    right. right. intros Ht. rewrite Hgo in H by (assumption || lia). discriminate.
  - intros Hc. destruct (Hstop Hc) as (self' & H & _). exists self'. exact H.
  - intros self' H.
    destruct (decide (bootstrap_nodes self = [])) as [Hb | Hb].
    { destruct (Hstop (or_introl Hb)) as (c & Hc & Hrest). congruence. }
    destruct (Z.le_gt_cases max_attempts 0) as [Hm | Hm].
    { destruct (Hstop (or_intror (or_introl Hm))) as (c & Hc & Hrest). congruence. }
    destruct (Qlt_le_dec (clock (S (clock_reads self)) - clock (clock_reads self))
                (inject_Z timeout)) as [Ht | Ht].
    { rewrite Hgo in H by (assumption || lia). discriminate. }
    apply Qle_not_lt in Ht.
    destruct (Hstop (or_intror (or_intror Ht))) as (c & Hc & Hrest). congruence.
Qed.

(** X19: [lookup] raises in three ways only: [KeyError] for a key text with
    a character outside the alphabet and [AttributeError] for a client
    without a [cache] attribute, both before it touches the client; and
    [TypeError] at the first call of its loop, after it has popped one node
    and before any request is made. *)
Theorem lookup_raise_causes self K max_attempts timeout e self' :
  lookup self K max_attempts timeout = (Raise e, self') ->
  (e = KeyError /\ self' = self /\
   ~ Forall (fun c => is_Some (Crypto.alphabet_map c)) (chars K)) \/
  (e = AttributeError /\ self' = self /\ cache self = None) \/
  (e = TypeError /\ cache self <> None /\ bootstrap_nodes self <> [] /\ 0 < max_attempts /\
   queried self' = queried self ++ [set_pop (list_to_set (bootstrap_nodes self))] /\
   requests self' = requests self /\ cache self' = cache self).
Proof.
  rewrite ClientFacts.lookup_code. intros H.
  assert (Hmiss : forall c tk,
            bootstrap_nodes c = bootstrap_nodes self -> queried c = queried self ->
            requests c = requests self -> cache c = cache self ->
            lookup_miss _request_packet_of_two c K tk max_attempts timeout = (Raise e, self') ->
            e = TypeError /\ bootstrap_nodes self <> [] /\ 0 < max_attempts /\
            queried self' = queried self ++ [set_pop (list_to_set (bootstrap_nodes self))] /\
            requests self' = requests self /\ cache self' = cache self).
  { intros c tk Hb Hq Hr Hc Hl.
    destruct (lookup_miss_ends c K tk max_attempts timeout) as [Hstop Hgo].
    destruct (decide (bootstrap_nodes c = [])) as [Hbc | Hbc].
    { destruct (Hstop (or_introl Hbc)) as (c' & Hc' & _). congruence. }
    destruct (Z.le_gt_cases max_attempts 0) as [Hm | Hm].
    { destruct (Hstop (or_intror (or_introl Hm))) as (c' & Hc' & _). congruence. }
    destruct (Qlt_le_dec (clock (S (clock_reads c)) - clock (clock_reads c))
                (inject_Z timeout)) as [Ht | Ht].
    - rewrite Hgo in Hl by (assumption || lia). injection Hl as <- <-. simpl.
      rewrite Hb in *. repeat split; try congruence; lia.
    - apply Qle_not_lt in Ht.
      destruct (Hstop (or_intror (or_intror Ht))) as (c' & Hc' & _). congruence. }
  destruct (PublicKeyM.init (KeyStr K)) as [tk | e0] eqn:Hinit.
  - right. destruct (cache self) as [entries |] eqn:Hcache.
    2: { injection H as <- <-. left. auto. }
    right.
    assert (Hsome : Some entries <> None) by discriminate.
    destruct (entries !! K) as [[cp ex] |].
    + destruct (Qltb _ _); [discriminate |].
      apply Hmiss in H; try reflexivity; [| simpl; exact Hcache].
      destruct H as (-> & ?). auto.
    + apply Hmiss in H; try reflexivity; [| exact Hcache].
      destruct H as (-> & ?). auto.
  - left. injection H as <- <-.
    destruct (decide (Forall (fun c => is_Some (Crypto.alphabet_map c)) (chars K)))
      as [Hs | Hs].
    + destruct (CodecMore.decode_good K Hs) as (b & Hb & _).
      unfold PublicKeyM.init in Hinit. rewrite Hb in Hinit. discriminate.
    + unfold PublicKeyM.init in Hinit. rewrite (CodecMore.decode_bad K Hs) in Hinit.
      injection Hinit as <-. auto.
Qed.

End LookupMore.

(** *** Closed runs *)

Lemma str_int_nonempty (n : Z) : str_int n <> "".
Proof.
  unfold str_int, NilZero.string_of_int, NilZero.string_of_uint.
  destruct (Z.to_int n) as [d | d]; [| discriminate].
  destruct d; discriminate.
Qed.

Lemma demo_int_numeral (n : Z) : 0 <= n < 65536 -> demo_int (str_int n) = Some n.
Proof.
  intros _. unfold demo_int. pose proof (str_int_nonempty n) as Hne.
  destruct (str_int n) eqn:E; [contradiction |].
  rewrite <- E. apply SignedPacketFacts.str_int_parse.
Qed.

(** The nodes that the demo transport hands out parse as addresses. *)
Example demo_decoded_node_parses :
  exists host port, parse_address demo_int "10.0.0.2:6881" = Address host port.
Proof.
  apply (decoded_node_parses demo_int "10.0.0.2:6881" demo_int_numeral).
  exists "10.0.0.2", 6881. split; [reflexivity |]. split; [lia |].
  repeat constructor; discriminate.
Qed.

Lemma request_packet_known_nodes_witness :
  known_nodes demo_client ⊆ known_nodes (snd (demo_request demo_client "10.0.0.1:6881")) /\
  bootstrap_nodes (snd (demo_request demo_client "10.0.0.1:6881"))
    = bootstrap_nodes demo_client /\
  cache (snd (demo_request demo_client "10.0.0.1:6881")) = cache demo_client /\
  requests (snd (demo_request demo_client "10.0.0.1:6881"))
    = requests demo_client ++ ["10.0.0.1:6881"] /\
  (forall l, fst (demo_request demo_client "10.0.0.1:6881") = Ok (Some (inr l)) ->
     known_nodes (snd (demo_request demo_client "10.0.0.1:6881"))
       = known_nodes demo_client ∪ list_to_set l /\ Forall decoded_node l) /\
  ((forall l, fst (demo_request demo_client "10.0.0.1:6881") <> Ok (Some (inr l))) ->
   known_nodes (snd (demo_request demo_client "10.0.0.1:6881")) = known_nodes demo_client).
Proof.
  apply (request_packet_known_nodes demo_int demo_transport demo_client "10.0.0.1:6881"
           (mkPublicKey demo_secret) "TXT"
           (fst (demo_request demo_client "10.0.0.1:6881"))).
  apply surjective_pairing.
Defined.

(** The same call evaluated: one node comes back and becomes known. *)
Example demo_request_nodes :
  fst (demo_request demo_client "10.0.0.1:6881") = Ok (Some (inr ["10.0.0.2:6881"])) /\
  known_nodes (snd (demo_request demo_client "10.0.0.1:6881"))
    = {["10.0.0.1:6881"; "10.0.0.2:6881"]}.
Proof.
  split; [vm_compute; reflexivity |].
  apply set_eq. intros x. vm_compute. split; intros H; exact H.
Qed.

(** A reply with a peer value of 6 bytes: the call ends with [None]. *)
Example demo_request_values :
  fst (demo_request demo_client "10.0.0.2:6881") = Ok None.
Proof. vm_compute. reflexivity. Qed.

Lemma lookup_without_attempts_witness :
  ((exists self', demo_lookup demo_client_empty demo_key_text 100 30 = (Ok None, self')) <->
   (bootstrap_nodes demo_client_empty = [] \/ 100 <= 0 \/
    ~ (demo_clock (S (clock_reads demo_client_empty))
       - demo_clock (clock_reads demo_client_empty) < inject_Z 30)%Q)) /\
  (forall self',
     demo_lookup demo_client_empty demo_key_text 100 30 = (Ok None, self') ->
     queried self' = queried demo_client_empty /\
     requests self' = requests demo_client_empty /\
     cache self' = cache demo_client_empty /\
     known_nodes self' = known_nodes demo_client_empty).
Proof.
  apply (lookup_without_attempts demo_clock demo_pop demo_client_empty demo_key_text
           (mkPublicKey demo_secret) ∅ 100 30).
  - exact ClientFacts.demo_key_text_init.
  - reflexivity.
  - apply lookup_empty.
Defined.

Example demo_lookup_empty :
  fst (demo_lookup demo_client_empty demo_key_text 100 30) = Ok None.
Proof. vm_compute. reflexivity. Qed.

Lemma lookup_raise_causes_witness :
  (AttributeError = KeyError /\
   demo_client = demo_client /\
   ~ Forall (fun c => is_Some (Crypto.alphabet_map c)) (chars demo_key_text)) \/
  (AttributeError = AttributeError /\ demo_client = demo_client /\
   cache demo_client = None) \/
  (AttributeError = TypeError /\ cache demo_client <> None /\
   bootstrap_nodes demo_client <> [] /\ 0 < 100 /\
   queried demo_client
     = queried demo_client ++ [demo_pop (list_to_set (bootstrap_nodes demo_client))] /\
   requests demo_client = requests demo_client /\ cache demo_client = cache demo_client).
Proof.
  apply (lookup_raise_causes demo_clock demo_pop demo_client demo_key_text 100 30).
  vm_compute. reflexivity.
Defined.

End ClientMore.
